(** * node-http-proxy (lib/node-http-proxy.js, version 0.4.2)

    A shallow embedding of the streaming reverse proxy: the event buffer
    ([HttpProxy.prototype.buffer]), one request/response proxy cycle
    ([HttpProxy.prototype.proxyRequest] with its local [proxyError] and the
    shadow path [_forwardRequest]) and the WebSocket tunnel
    ([HttpProxy.prototype.proxyWebSocketRequest] with [handshake] and
    [onUpgrade]).

    JavaScript objects used as maps (header objects) are [gmap string string];
    objects that are shared and mutated through several names live in a store
    indexed by locations; event emitters are lists of registered listeners in
    registration order; calls on sockets and responses are recorded, in order,
    in a trace of actions. *)

From Stdlib Require Import ZArith Lia Ascii.
From stdpp Require Import base list strings pretty gmap.

Open Scope string_scope.
Open Scope list_scope.

(** ** The EventEmitter of node's [events] module

    An emitter keeps, per event name, the listeners in registration order.
    [on] appends, [removeListener] drops the first registration of the given
    listener under the given name (and does nothing when there is none), and
    [emit] calls the listeners registered under the name, in order. *)
Module Events.
Section emitter.
Context {L : Type} `{EqDecision L}.

Definition Emitter : Type := list (string * L).

Definition on (name : string) (l : L) (e : Emitter) : Emitter :=
  e ++ [(name, l)].

Fixpoint removeListener (name : string) (l : L) (e : Emitter) : Emitter :=
  match e with
  | [] => []
  | x :: e' =>
      if decide (x = (name, l)) then e' else x :: removeListener name l e'
  end.

(** The listeners [emit name] calls, a copy taken before the first call. *)
Fixpoint listeners (name : string) (e : Emitter) : list L :=
  match e with
  | [] => []
  | (n, l) :: e' =>
      if decide (n = name) then l :: listeners name e' else listeners name e'
  end.
End emitter.
End Events.

(** ** [HttpProxy.prototype.buffer]

    [buffer(obj)] registers two closures on [obj], [onData] and [onEnd], which
    push onto the private array [events]; the handle it returns has [end] and
    [resume].  The other listeners of [obj] are the consumers downstream; what
    each of them is called with is recorded in [seen]. *)
Module Buffer.
Section buffer.
(** The values carried by an event (a chunk, an encoding, [undefined]). *)
Context {V : Type}.

Inductive Listener :=
| onData                     (* function (data, encoding) { events.push(['data', ...]) } *)
| onEnd                      (* function (data, encoding) { events.push(['end', ...]) } *)
| Downstream (k : nat).      (* any other listener of [obj], named by a number *)

#[global] Instance Listener_eq_dec : EqDecision Listener.
Proof. solve_decision. Defined.

(** An entry of [events]: [[name, data, encoding]]. *)
Definition Captured : Type := string * V * V.

Record State := mkState {
  obj : @Events.Emitter Listener;     (* the listeners of [obj] *)
  events : list Captured;             (* var events = [] *)
  seen : list (nat * Captured)        (* calls received downstream, in order *)
}.

(** One listener called by [obj.emit(name, data, encoding)]. *)
Definition call (name : string) (data encoding : V) (l : Listener) (st : State) : State :=
  match l with
  | onData => mkState (obj st) (events st ++ [("data", data, encoding)]) (seen st)
  | onEnd => mkState (obj st) (events st ++ [("end", data, encoding)]) (seen st)
  | Downstream k => mkState (obj st) (events st) (seen st ++ [(k, (name, data, encoding))])
  end.

Definition emit (ev : Captured) (st : State) : State :=
  let '(name, data, encoding) := ev in
  foldl (fun s l => call name data encoding l s) st (Events.listeners name (obj st)).

(** [obj.on(name, listener)] for a downstream listener. *)
Definition on (name : string) (k : nat) (st : State) : State :=
  mkState (Events.on name (Downstream k) (obj st)) (events st) (seen st).

(** [buffer(obj)]: [events = []], then the two registrations. *)
Definition buffer (st : State) : State :=
  mkState (Events.on "end" onEnd (Events.on "data" onData (obj st))) [] (seen st).

(** [end: function () { obj.removeListener('data', onData); obj.removeListener('end', onEnd); }] *)
Definition end_ (st : State) : State :=
  mkState (Events.removeListener "end" onEnd (Events.removeListener "data" onData (obj st)))
          (events st) (seen st).

(** [resume]: [this.end()], then
    [for (var i = 0, len = events.length; i < len; ++i) obj.emit.apply(obj, events[i])].
    [len] is read once; [events[i]] is read at each turn. *)
Definition resume (st : State) : State :=
  let st1 := end_ st in
  let len := length (events st1) in
  foldl (fun s i => match events s !! i with
                    | Some ev => emit ev s
                    | None => s
                    end) st1 (seq 0 len).

(** The events of a stream, as the source emits them. *)
Inductive Kind := KData | KEnd.

Definition name_of (k : Kind) : string :=
  match k with KData => "data" | KEnd => "end" end.

Definition captured (e : Kind * V * V) : Captured :=
  let '(k, d, enc) := e in (name_of k, d, enc).

Definition emit_all (evs : list Captured) (st : State) : State :=
  foldl (fun s ev => emit ev s) st evs.

Definition on_all (ds : list (string * nat)) (st : State) : State :=
  foldl (fun s d => on d.1 d.2 s) st ds.

Definition downstream (ds : list (string * nat)) : @Events.Emitter Listener :=
  map (fun d => (d.1, Downstream d.2)) ds.

(** What the downstream listeners [ds] receive when [evs] are emitted:
    per event, in order, each listener registered under its name. *)
Definition deliver (ds : list (string * nat)) (evs : list Captured) : list (nat * Captured) :=
  flat_map (fun ev => map (fun d => (d.2, ev)) (filter (fun d => d.1 = ev.1.1) ds)) evs.

(** The property "a second [resume()] delivers nothing", at a given state. *)
Definition second_resume_is_noop (st : State) : Prop :=
  seen (resume (resume st)) = seen (resume st).
End buffer.
Arguments State : clear implicits.
Arguments Captured : clear implicits.
End Buffer.

(** ** JavaScript values and coercions used by the proxy *)
Module Js.
(** A property that holds a string or is absent ([undefined]), in a
    condition: absent and the empty string are false. *)
Definition truthy (v : option string) : bool :=
  match v with
  | Some s => bool_decide (s ≠ "")
  | None => false
  end.

(** [ToString] of a property that holds a string or is absent. *)
Definition to_string (v : option string) : string :=
  match v with
  | Some s => s
  | None => "undefined"
  end.

(** Characters are kept by their code (Latin-1 in a [string], UTF-16 code
    units in a [list N]). *)
Definition lower_code (c : N) : N :=
  if ((65 <=? c) && (c <=? 90))%N then (c + 32)%N
  else if ((192 <=? c) && (c <=? 222) && negb (c =? 215))%N then (c + 32)%N
  else c.

Definition lower (c : ascii) : ascii :=
  Ascii.ascii_of_N (lower_code (Ascii.N_of_ascii c)).

(** [String.prototype.toLowerCase] *)
Fixpoint toLowerCase (s : string) : string :=
  match s with
  | EmptyString => EmptyString
  | String c s => String (lower c) (toLowerCase s)
  end.

(** Two strings that differ at most in the case of their letters. *)
Fixpoint equal_ignoring_case (a b : string) : Prop :=
  match a, b with
  | EmptyString, EmptyString => True
  | String c a, String d b => lower c = lower d ∧ equal_ignoring_case a b
  | _, _ => False
  end.

(** The code units of a string. *)
Fixpoint chars (s : string) : list N :=
  match s with
  | EmptyString => []
  | String c s => Ascii.N_of_ascii c :: chars s
  end.

Fixpoint starts_with (pat s : list N) : bool :=
  match pat, s with
  | [], _ => true
  | _ :: _, [] => false
  | p :: pat, c :: s => (p =? c)%N && starts_with pat s
  end.

(** The first index at which [pat] occurs in [s]. *)
Fixpoint indexOf (pat s : list N) : option nat :=
  if starts_with pat s then Some 0
  else match s with
       | [] => None
       | _ :: s => S <$> indexOf pat s
       end.

(** [String.prototype.search] with a pattern that has no special
    character: the index of the first occurrence, or -1. *)
Definition search (pat s : list N) : Z :=
  match indexOf pat s with
  | Some i => Z.of_nat i
  | None => (-1)%Z
  end.

(** [String.prototype.substr (start, length)] *)
Definition substr (s : list N) (start len : Z) : list N :=
  let size := Z.of_nat (length s) in
  let start := if (start <? 0)%Z then Z.max (size + start) 0 else Z.min start size in
  if (len <=? 0)%Z then []
  else take (Z.to_nat len) (drop (Z.to_nat start) s).

(** The replacement text of [String.prototype.replace] with a string
    pattern: [$$], [$&], [$`] and [$'] are expanded; there is no group,
    so [$1] and the like stay as they are. *)
Fixpoint expand (matched before after rep : list N) : list N :=
  match rep with
  | [] => []
  | c :: rest =>
      if (c =? 36)%N then
        match rest with
        | d :: rest' =>
            if (d =? 36)%N then 36%N :: expand matched before after rest'
            else if (d =? 38)%N then matched ++ expand matched before after rest'
            else if (d =? 96)%N then before ++ expand matched before after rest'
            else if (d =? 39)%N then after ++ expand matched before after rest'
            else c :: expand matched before after rest
        | [] => [c]
        end
      else c :: expand matched before after rest
  end.

(** [s.replace(pat, rep)] with a string pattern: the first occurrence only. *)
Definition replace (pat rep s : list N) : list N :=
  match indexOf pat s with
  | None => s
  | Some i =>
      let before := take i s in
      let after := drop (i + length pat) s in
      before ++ expand pat before after rep ++ after
  end.

Definition is_continuation (b : N) : bool := ((128 <=? b) && (b <=? 191))%N.

(** [Buffer.prototype.toString()]: UTF-8 to UTF-16 code units; a byte that
    starts no well-formed sequence gives U+FFFD and decoding goes on at
    the next byte. *)
Fixpoint utf8_decode (bs : list N) : list N :=
  match bs with
  | [] => []
  | b :: rest =>
      if (b <? 128)%N then b :: utf8_decode rest
      else if ((194 <=? b) && (b <=? 223))%N then
        match rest with
        | c1 :: rest1 =>
            if is_continuation c1
            then ((b - 192) * 64 + (c1 - 128))%N :: utf8_decode rest1
            else 65533%N :: utf8_decode rest
        | [] => [65533%N]
        end
      else if ((224 <=? b) && (b <=? 239))%N then
        match rest with
        | c1 :: (c2 :: rest2) =>
            let cp := ((b - 224) * 4096 + (c1 - 128) * 64 + (c2 - 128))%N in
            if is_continuation c1 && is_continuation c2
               && (2048 <=? cp)%N && negb ((55296 <=? cp) && (cp <=? 57343))%N
            then cp :: utf8_decode rest2
            else 65533%N :: utf8_decode rest
        | _ => 65533%N :: utf8_decode rest
        end
      else if ((240 <=? b) && (b <=? 244))%N then
        match rest with
        | c1 :: (c2 :: (c3 :: rest3)) =>
            let cp := ((b - 240) * 262144 + (c1 - 128) * 4096
                       + (c2 - 128) * 64 + (c3 - 128))%N in
            if is_continuation c1 && is_continuation c2 && is_continuation c3
               && (65536 <=? cp)%N && (cp <=? 1114111)%N
            then (55296 + (cp - 65536) / 1024)%N
                   :: (56320 + (cp - 65536) mod 1024)%N :: utf8_decode rest3
            else 65533%N :: utf8_decode rest
        | _ => 65533%N :: utf8_decode rest
        end
      else 65533%N :: utf8_decode rest
  end.

(** [Buffer.byteLength(s)]: the length of [s] in UTF-8. *)
Fixpoint byteLength (s : list N) : nat :=
  match s with
  | [] => 0
  | c :: rest =>
      if (c <? 128)%N then 1 + byteLength rest
      else if (c <? 2048)%N then 2 + byteLength rest
      else if ((55296 <=? c) && (c <=? 56319))%N then
        match rest with
        | d :: rest' =>
            if ((56320 <=? d) && (d <=? 57343))%N then 4 + byteLength rest'
            else 3 + byteLength rest
        | [] => 3
        end
      else 3 + byteLength rest
  end.

(** [Buffer.prototype.slice (start, end)] of node 0.4: out of bounds
    throws ([None]). *)
Definition slice (data : list N) (start stop : nat) : option (list N) :=
  if bool_decide (length data < stop) then None
  else if bool_decide (stop < start) then None
  else Some (take (stop - start) (drop start data)).
End Js.

(** ** One proxy cycle: [proxyRequest], [proxyError], [_forwardRequest] *)
Module Proxy.
Section proxy.
(** The error object handed to the ['error'] listener, and
    [JSON.stringify] on it. *)
Context {Err : Type}.
Variable JSON_stringify : Err → string.

(** The events of the inbound request stream. *)
Inductive ReqEvent :=
| Data (chunk : string)
| End.

(** The values found in the positional arguments [port], [host], [buffer]. *)
Inductive Value :=
| undefined
| Num (n : Z)
| Str (s : string)
| BufferHandle (events : list ReqEvent).   (* a result of [buffer(req)] and its log *)

Definition truthy (v : Value) : bool :=
  match v with
  | undefined => false
  | Num n => bool_decide (n ≠ 0%Z)
  | Str s => bool_decide (s ≠ "")
  | BufferHandle _ => true
  end.

(** [req]: the header object is shared, so the request holds its location. *)
Record Request := mkRequest {
  method : string;
  url : string;
  headers : nat
}.

Record Location := mkLocation {
  host : string;
  port : Z
}.

(** [_getAgent (host, port)]: the agent of [http.getAgent] with its
    [maxSockets] set from the module's variable. *)
Record Agent := mkAgent {
  agent_host : Value;
  agent_port : Value;
  agent_maxSockets : Z
}.

(** The object literal [opts] given to [http.request]. *)
Record Options := mkOptions {
  opts_host : Value;
  opts_port : Value;
  opts_agent : Agent;
  opts_method : string;
  opts_path : string;
  opts_headers : nat            (* headers: req.headers, the same object *)
}.

(** A call on the inbound response [res]. *)
Inductive ResOp :=
| writeHead (status : Z) (hs : gmap string string)
| write (chunk : string)
| end_.

Inductive Action :=
| Res (op : ResOp)                         (* the engine calls [res] *)
| Consumer (op : ResOp)                    (* a ['proxyError'] listener calls [res] *)
| EmitProxyError (err : Err) (req : Request)  (* self.emit('proxyError', err, req, res) *)
| HttpRequest (o : Options) (sent : option (gmap string string))
                                           (* reverseProxy = http.request(opts, ...),
                                              with the content of [opts.headers] at the call *)
| RpWrite (chunk : string)                 (* reverseProxy.write(chunk) *)
| RpEnd                                    (* reverseProxy.end() *)
| FwdHttpRequest (o : Options) (sent : option (gmap string string))
                                           (* forwardProxy = http.request(opts, ...) *)
| FwdWrite (chunk : string)                (* forwardProxy.write(chunk) *)
| FwdEnd.                                  (* forwardProxy.end() *)

(** The [HttpProxy] instance and what the module reads around it. *)
Record HttpProxy := mkHttpProxy {
  proxyTable : option (Request → gmap nat (gmap string string) → option Location);
                                           (* this.proxyTable.getProxyLocation *)
  forward : option Location;               (* this.options.forward *)
  proxyErrorListeners : list (Err → list ResOp);
                                           (* the listeners of ['proxyError'] *)
  NODE_ENV : option string;                (* process.env.NODE_ENV *)
  maxSockets : Z
}.

(** The variables of one call of [proxyRequest] and the listeners it has
    registered; each is registered once, so a flag says whether it is
    still there. *)
Record State := mkState {
  store : gmap nat (gmap string string);   (* the header objects *)
  errState : bool;                         (* var errState = false *)
  errorListener : bool;                    (* reverseProxy.once('error', proxyError) *)
  awaitingResponse : bool;                 (* the callback of http.request, called once *)
  responseListeners : bool;                (* response.on('data'), response.on('end') *)
  requestListeners : bool;                 (* req.on('data'), req.on('end') *)
  forwarding : bool                        (* the listeners of _forwardRequest on req *)
}.

Definition set_errState (b : bool) (st : State) : State :=
  mkState (store st) b (errorListener st) (awaitingResponse st)
          (responseListeners st) (requestListeners st) (forwarding st).

Definition set_errorListener (b : bool) (st : State) : State :=
  mkState (store st) (errState st) b (awaitingResponse st)
          (responseListeners st) (requestListeners st) (forwarding st).

Definition set_awaitingResponse (b : bool) (st : State) : State :=
  mkState (store st) (errState st) (errorListener st) b
          (responseListeners st) (requestListeners st) (forwarding st).

Definition set_responseListeners (b : bool) (st : State) : State :=
  mkState (store st) (errState st) (errorListener st) (awaitingResponse st)
          b (requestListeners st) (forwarding st).

Definition get_header (σ : gmap nat (gmap string string)) (l : nat) (k : string) : option string :=
  σ !! l ≫= (.!! k).

(** [o.headers[k] = v] on the shared object. *)
Definition set_header (l : nat) (k v : string) (σ : gmap nat (gmap string string))
  : gmap nat (gmap string string) :=
  alter (<[k := v]>) l σ.

Definition _getAgent (self : HttpProxy) (host port : Value) : Agent :=
  mkAgent host port (maxSockets self).

(** Events delivered to the cycle by the transport. *)
Inductive Event :=
| Inbound (e : ReqEvent)                             (* req 'data' / 'end' *)
| Response (statusCode : Z) (hs : gmap string string) (* the callback of http.request *)
| ResponseData (chunk : string)                      (* response 'data' *)
| ResponseEnd                                        (* response 'end' *)
| Error (err : Err)                                  (* reverseProxy 'error' *)
| ForwardError (err : Err).                          (* forwardProxy 'error' *)

(** [self.emit('proxyError', err, req, res)]: every listener is called;
    the result is whether there was one. *)
Definition emit_proxyError (self : HttpProxy) (err : Err) (req : Request) : bool * list Action :=
  (bool_decide (proxyErrorListeners self ≠ []),
   EmitProxyError err req ::
     flat_map (fun l => map Consumer (l err)) (proxyErrorListeners self)).

(** [function proxyError(err)] *)
Definition proxyError (self : HttpProxy) (req : Request) (err : Err) (st : State)
  : State * list Action :=
  let st := set_errState true st in
  let '(claimed, notified) := emit_proxyError self err req in
  if claimed then (st, notified)
  else
    (st,
     notified
     ++ [Res (writeHead 500 {[ "Content-Type" := "text/plain" ]})]
     ++ (if bool_decide (method req ≠ "HEAD") then
           if bool_decide (NODE_ENV self = Some "production") then
             [Res (write "Internal Server Error")]
           else
             [Res (write ("An error has occurred: " +:+ JSON_stringify err))]
         else [])
     ++ [Res end_]).

(** The callback of [http.request]: the header rewrite, [res.writeHead],
    then either the 304 exit or the two registrations on [response]. *)
Definition onResponse (req : Request) (statusCode : Z) (hs : gmap string string) (st : State)
  : State * list Action :=
  let hs :=
    if Js.truthy (hs !! "connection") then
      if Js.truthy (get_header (store st) (headers req) "connection") then
        match get_header (store st) (headers req) "connection" with
        | Some c => <["connection" := c]> hs
        | None => hs
        end
      else <["connection" := "close"]> hs
    else hs in
  if bool_decide (statusCode = 304%Z) then
    (set_awaitingResponse false st,
     [Res (writeHead statusCode hs); Res end_])
  else
    (set_responseListeners true (set_awaitingResponse false st),
     [Res (writeHead statusCode hs)]).

(** The listeners of the cycle, run on one event.  On [req] the listeners
    of [_forwardRequest] were registered first. *)
Definition step (self : HttpProxy) (req : Request) (st : State) (ev : Event)
  : State * list Action :=
  match ev with
  | Inbound (Data chunk) =>
      (st,
       (if forwarding st then [FwdWrite chunk] else [])
       ++ (if requestListeners st then
             if errState st then [] else [RpWrite chunk]
           else []))
  | Inbound End =>
      (st,
       (if forwarding st then [FwdEnd] else [])
       ++ (if requestListeners st then
             if errState st then [] else [RpEnd]
           else []))
  | Response statusCode hs =>
      if awaitingResponse st then onResponse req statusCode hs st else (st, [])
  | ResponseData chunk =>
      if responseListeners st then
        (st, if bool_decide (method req ≠ "HEAD") then [Res (write chunk)] else [])
      else (st, [])
  | ResponseEnd =>
      if responseListeners st then
        if errState st then (st, [])
        else
          (* reverseProxy.removeListener('error', proxyError); res.end();
             [removeListener] takes off a listener registered with [once],
             as the documentation of [events] has it *)
          (set_errorListener false st, [Res end_])
      else (st, [])
  | Error err =>
      if errorListener st then
        (* registered with [once]: taken off, then called *)
        proxyError self req err (set_errorListener false st)
      else (st, [])   (* nobody of the cycle listens any more *)
  | ForwardError _ => (st, [])
  end.

Fixpoint run (self : HttpProxy) (req : Request) (st : State) (evs : list Event)
  : State * list Action :=
  match evs with
  | [] => (st, [])
  | ev :: evs =>
      let '(st1, t1) := step self req st ev in
      let '(st2, t2) := run self req st1 evs in
      (st2, t1 ++ t2)
  end.

(** How a call of [proxyRequest] ends. *)
Inductive Completion :=
| RouteMiss (σ : gmap nat (gmap string string)) (trace : list Action)
                                 (* [return res.end()] after the 404 *)
| Started (st : State) (trace : list Action)
                                 (* the end of the function is reached *)
| Threw (st : State) (trace : list Action).
                                 (* a TypeError on the way; what was registered stays *)

(** [HttpProxy.prototype._forwardRequest]: the store after it and the
    request it opens. [None] when [req.headers] is no object (the
    assignment to [opts.headers['connection']] throws). *)
Definition _forwardRequest (self : HttpProxy) (target : Location) (req : Request)
    (σ : gmap nat (gmap string string))
  : option (gmap nat (gmap string string) * list Action) :=
  let '(mkLocation forward_host forward_port) := target in
  let port := Num forward_port in
  let host := Str forward_host in
  let opts := mkOptions host port (_getAgent self host port)
                        (method req) (url req) (headers req) in
  match σ !! opts_headers opts with
  | None => None
  | Some _ =>
      let σ := set_header (opts_headers opts) "connection" "close" σ in
      Some (σ, [FwdHttpRequest opts (σ !! opts_headers opts)])
  end.

(** [HttpProxy.prototype.proxyRequest], up to its return. *)
Definition proxyRequest (self : HttpProxy) (req : Request) (port host buffer : Value)
    (σ : gmap nat (gmap string string)) : Completion :=
  let idle fwd σ := mkState σ false false false false false fwd in
  (* if (this.proxyTable && !host) *)
  let routed :=
    match proxyTable self with
    | Some getProxyLocation =>
        if negb (truthy host) then
          match getProxyLocation req σ with
          | None => None
          | Some (mkLocation location_host location_port) =>
              (* buffer = port; port = location.port; host = location.host; *)
              Some (Num location_port, Str location_host, port)
          end
        else Some (port, host, buffer)
    | None => Some (port, host, buffer)
    end in
  match routed with
  | None => RouteMiss σ [Res (writeHead 404 ∅); Res end_]
  | Some (port, host, buffer) =>
      (* if (this.options.forward) this._forwardRequest(req) *)
      let forwarded :=
        match forward self with
        | Some target =>
            match _forwardRequest self target req σ with
            | Some (σ, t) => Some (σ, t, true)
            | None => None
            end
        | None => Some (σ, [], false)
        end in
      match forwarded with
      | None => Threw (idle false σ) []
      | Some (σ, t0, fwd) =>
          let opts := mkOptions host port (_getAgent self host port)
                                (method req) (url req) (headers req) in
          match σ !! opts_headers opts with
          | None => Threw (idle fwd σ) t0
          | Some _ =>
              let σ := set_header (opts_headers opts) "connection" "close" σ in
              let t1 := t0 ++ [HttpRequest opts (σ !! opts_headers opts)] in
              let st := mkState σ false true true false true fwd in
              (* if (buffer && !errState) buffer.resume() *)
              match buffer with
              | BufferHandle events =>
                  let '(st, t2) := run self req st (map Inbound events) in
                  Started st (t1 ++ t2)
              | _ =>
                  if truthy buffer then Threw st t1 else Started st t1
              end
          end
      end
  end.

Definition route_miss (c : Completion) : bool :=
  match c with
  | RouteMiss _ _ => true
  | _ => false
  end.

Definition state_of (c : Completion) : option State :=
  match c with
  | RouteMiss _ _ => None
  | Started st _ | Threw st _ => Some st
  end.

Definition store_of (c : Completion) : gmap nat (gmap string string) :=
  match c with
  | RouteMiss σ _ => σ
  | Started st _ | Threw st _ => store st
  end.

Definition trace_of (c : Completion) : list Action :=
  match c with
  | RouteMiss _ t | Started _ t | Threw _ t => t
  end.

(** A whole cycle: the call, then the events the transport delivers to
    the listeners the call has registered. *)
Definition cycle (self : HttpProxy) (req : Request) (port host buffer : Value)
    (σ : gmap nat (gmap string string)) (evs : list Event) : list Action :=
  let c := proxyRequest self req port host buffer σ in
  match state_of c with
  | None => trace_of c
  | Some st => trace_of c ++ (run self req st evs).2
  end.

(** *** What the trace of a cycle is asked for *)

(** [res.end()] by the engine. *)
Definition is_engine_end (a : Action) : bool :=
  match a with Res end_ => true | _ => false end.

(** [res.end()] by whoever holds [res]: the engine or a listener. *)
Definition is_end (a : Action) : bool :=
  match a with Res end_ | Consumer end_ => true | _ => false end.

(** A write by the engine, to the inbound response or to the outbound
    request. *)
Definition is_engine_write (a : Action) : bool :=
  match a with
  | Res (writeHead _ _) | Res (write _) | RpWrite _ => true
  | _ => false
  end.

(** A call on the inbound response, by the engine or by a listener. *)
Definition on_response (a : Action) : bool :=
  match a with Res _ | Consumer _ => true | _ => false end.

(** The two events of the backend response whose listeners do not look
    at the flag: its arrival and its ['data']. *)
Definition from_backend_response (ev : Event) : bool :=
  match ev with Response _ _ | ResponseData _ => true | _ => false end.

(** Anything sent to the outbound request. *)
Definition is_outbound (a : Action) : bool :=
  match a with RpWrite _ | RpEnd => true | _ => false end.

Fixpoint count (p : Action → bool) (t : list Action) : nat :=
  match t with
  | [] => 0
  | a :: t => (if p a then 1 else 0) + count p t
  end.

(** The invariant of the error-state flag in the words of the
    specification: from the point where the flag is set no write is issued
    any more, and the inbound response is ended exactly once. *)
Definition error_state_invariant (self : HttpProxy) (req : Request)
    (port host buffer : Value) (σ : gmap nat (gmap string string))
    (evs : list Event) : Prop :=
  ∀ st, state_of (proxyRequest self req port host buffer σ) = Some st →
  ∀ pre post, evs = pre ++ post →
    errState (run self req st pre).1 = true →
    (∀ a, a ∈ (run self req (run self req st pre).1 post).2 → is_engine_write a = false)
    ∧ count is_end (cycle self req port host buffer σ evs) = 1.

(** The answer to an error in the words of the specification: the
    notification, then a 500 with a text body, then the end. *)
Definition answers_500_with_body (self : HttpProxy) (req : Request) (st : State) (err : Err)
  : Prop :=
  (step self req st (Error err)).2
  = [EmitProxyError err req;
     Res (writeHead 500 {[ "Content-Type" := "text/plain" ]});
     Res (write (if bool_decide (NODE_ENV self = Some "production")
                 then "Internal Server Error"
                 else "An error has occurred: " +:+ JSON_stringify err));
     Res end_].

(** "Every call sets [connection] to [close] in the request's own headers." *)
Definition forces_connection_close (self : HttpProxy) (req : Request)
    (port host buffer : Value) (σ : gmap nat (gmap string string)) : Prop :=
  get_header (store_of (proxyRequest self req port host buffer σ)) (headers req) "connection"
  = Some "close".
End proxy.
End Proxy.

(** Requests, proxies and a store to run the cycle on. *)
Module ProxyExample.
Import Proxy.

(** Errors are named by their message; [JSON.stringify] of an [Error]
    with no enumerable property. *)
Definition stringify (err : string) : string := "{}".

(** One header object, at location 0. *)
Definition store0 : gmap nat (gmap string string) :=
  {[ 0 := {[ "connection" := "keep-alive"; "host" := "example.com" ]} ]}.

Definition GET : Request := mkRequest "GET" "/" 0.
Definition HEAD : Request := mkRequest "HEAD" "/" 0.

(** No routing table, no forward address, no listener. *)
Definition plain : @HttpProxy string := mkHttpProxy None None [] None 100.

Definition in_production : @HttpProxy string :=
  mkHttpProxy None None [] (Some "production") 100.

(** A listener of ['proxyError'] that leaves [res] alone (it logs). *)
Definition observed : @HttpProxy string :=
  mkHttpProxy None None [fun _ => []] None 100.

(** A routing table that knows no host. *)
Definition routed : @HttpProxy string :=
  mkHttpProxy (Some (fun _ _ => None)) None [] None 100.

(** The state [proxyRequest] leaves for these. *)
Definition listening : State :=
  mkState {[ 0 := {[ "connection" := "close"; "host" := "example.com" ]} ]}
          false true true false true false.

Definition opts : Options :=
  mkOptions (Str "backend") (Num 8080) (mkAgent (Str "backend") (Num 8080) 100)
            "GET" "/" 0.
End ProxyExample.

(** ** The WebSocket tunnel: [proxyWebSocketRequest], [handshake], [onUpgrade] *)
Module WebSocket.
(** [self.req]; its header object is only read (it is cloned first). *)
Record Request := mkRequest {
  method : string;
  url : string;
  headers : gmap string string
}.

(** The objects the tunnel calls and listens to. *)
Inductive Conn :=
| socket              (* self.sock, the inbound socket *)
| reverse_proxy       (* the socket handed over by the client's 'upgrade' *)
| request             (* client.request('GET', req.url, headers) *)
| request_socket.     (* request.socket *)

#[global] Instance Conn_eq_dec : EqDecision Conn.
Proof. solve_decision. Defined.

(** What a ['data'] event carries and what [write] is given: a string
    (code units) or a [Buffer] (bytes). *)
Inductive Payload :=
| Text (s : list N)
| Bytes (b : list N).

(** The functions registered as listeners. *)
Inductive Handler :=
| handshake           (* request.socket.on('data', handshake = function (data) ...) *)
| socket_error        (* socket.on('error', function () { request.end(); }) *)
| _r_data             (* listeners._r_data *)
| _data               (* listeners._data *)
| _r_close            (* listeners._r_close *)
| _close.             (* listeners._close *)

#[global] Instance Handler_eq_dec : EqDecision Handler.
Proof. solve_decision. Defined.

Inductive Action :=
| SetTimeout (c : Conn) (ms : Z)
| SetNoDelay (c : Conn) (b : bool)
| SetKeepAlive (c : Conn) (b : bool) (delay : Z)
| SetEncoding (c : Conn) (encoding : string)
| GetPool (port : Z) (server : string)        (* manager.getPool(port, server) *)
| GetClient                                   (* p.getClient(function (client) ...) *)
| ClientRequest (method url : string) (headers : gmap string string)
                                              (* client.request('GET', req.url, headers) *)
| Unwatch (c : Conn)                          (* self.unwatch(socket) *)
| Write (c : Conn) (d : Payload)              (* c.write(d) *)
| EndOf (c : Conn).                           (* c.end() *)

(** The variables the listeners close over. *)
Record Closure := mkClosure {
  host : option string;
  remote_host : string;
  rewritten : gmap string string        (* headers, after the change of Host and Origin *)
}.

(** The sockets and who listens to them. A socket that is not writable
    throws on [write]; [end] leaves it not writable. *)
Record Tunnel := mkTunnel {
  socket_writable : bool;
  reverse_proxy_writable : bool;
  on_socket : @Events.Emitter Handler;
  on_reverse_proxy : @Events.Emitter Handler;
  on_request_socket : @Events.Emitter Handler
}.

Definition CRLF : string := String "013" (String "010" EmptyString).

Definition writable (c : Conn) (t : Tunnel) : bool :=
  match c with
  | socket => socket_writable t
  | reverse_proxy => reverse_proxy_writable t
  | request | request_socket => true
  end.

Definition emitter (c : Conn) (t : Tunnel) : @Events.Emitter Handler :=
  match c with
  | socket => on_socket t
  | reverse_proxy => on_reverse_proxy t
  | request_socket => on_request_socket t
  | request => []
  end.

Definition set_emitter (c : Conn) (e : @Events.Emitter Handler) (t : Tunnel) : Tunnel :=
  match c with
  | socket =>
      mkTunnel (socket_writable t) (reverse_proxy_writable t) e
               (on_reverse_proxy t) (on_request_socket t)
  | reverse_proxy =>
      mkTunnel (socket_writable t) (reverse_proxy_writable t) (on_socket t)
               e (on_request_socket t)
  | request_socket =>
      mkTunnel (socket_writable t) (reverse_proxy_writable t) (on_socket t)
               (on_reverse_proxy t) e
  | request => t
  end.

Definition on (c : Conn) (name : string) (h : Handler) (t : Tunnel) : Tunnel :=
  set_emitter c (Events.on name h (emitter c t)) t.

Definition removeListener (c : Conn) (name : string) (h : Handler) (t : Tunnel) : Tunnel :=
  set_emitter c (Events.removeListener name h (emitter c t)) t.

(** [c.write(d)]: [None] when it throws. *)
Definition write (c : Conn) (d : Payload) (t : Tunnel) : option (list Action) :=
  if writable c t then Some [Write c d] else None.

(** [c.end()] *)
Definition end_ (c : Conn) (t : Tunnel) : Tunnel * list Action :=
  (match c with
   | socket =>
       mkTunnel false (reverse_proxy_writable t) (on_socket t)
                (on_reverse_proxy t) (on_request_socket t)
   | reverse_proxy =>
       mkTunnel (socket_writable t) false (on_socket t)
                (on_reverse_proxy t) (on_request_socket t)
   | request | request_socket => t
   end,
   [EndOf c]).

(** The result of [proxyWebSocketRequest]. *)
Inductive Outcome :=
| Returned (trace : list Action) (cl : option Closure)
| Threw.            (* TypeError: [headers.upgrade] is undefined *)

(** [function _socket(socket, server)] *)
Definition _socket (c : Conn) (server : bool) : list Action :=
  [SetTimeout c 0; SetNoDelay c true]
  ++ (if server then [SetKeepAlive c true 0] else [SetEncoding c "utf8"]).

(** [HttpProxy.prototype.proxyWebSocketRequest], up to [p.getClient]. *)
Definition proxyWebSocketRequest (req : Request) (port : Z) (server : string)
    (host : option string) : Outcome :=
  (* headers = new _headers(req.headers) *)
  let headers := headers req in
  if bool_decide (method req ≠ "GET") then Returned [] None
  else
    match headers !! "upgrade" with
    | None => Threw
    | Some upgrade =>
        if bool_decide (Js.toLowerCase upgrade ≠ "websocket") then Returned [] None
        else
          let t0 := _socket socket false in
          let host := if negb (Js.truthy host) then headers !! "Host" else host in
          let remote_host :=
            server +:+ (if bool_decide (port - 80 = 0)%Z then "" else ":" +:+ pretty port) in
          let headers := <["Host" := remote_host]> headers in
          let headers := <["Origin" := "http://" +:+ remote_host]> headers in
          Returned (t0 ++ [GetPool port server; GetClient])
                   (Some (mkClosure host remote_host headers))
    end.

(** The callback given to [p.getClient], as far as the tunnel goes: the
    upgrade request is opened, [handshake] listens to [request.socket],
    [head] is written to the request, and the socket is unwatched.  (The
    listeners it puts on [client] and on the request's ['response'] keep
    the books of the pool.) *)
Definition getClient_callback (cl : Closure) (req : Request) (head : Payload) (t : Tunnel)
  : Tunnel * list Action :=
  let opened := [ClientRequest "GET" (url req) (rewritten cl)] in
  let t := on request_socket "data" handshake t in
  let '(t, written) :=
    match write request head t with
    | Some w => (t, w)
    | None =>
        let '(t, e1) := end_ request t in
        let '(t, e2) := end_ socket t in
        (t, e1 ++ e2)
    end in
  (t, opened ++ written ++ [Unwatch socket]).

(** [function detach()] *)
Definition detach (t : Tunnel) : Tunnel :=
  let t := removeListener reverse_proxy "close" _r_close t in
  let t := removeListener reverse_proxy "data" _r_data t in
  let t := removeListener socket "data" _data t in
  removeListener socket "close" _close t.

(** [function onUpgrade(reverse_proxy)] *)
Definition onUpgrade (t : Tunnel) : Tunnel :=
  let t := on reverse_proxy "data" _r_data t in
  let t := on socket "data" _data t in
  let t := on reverse_proxy "end" _r_close t in
  on socket "end" _close t.

(** The listener of the client's ['upgrade']:
    [_socket(remote_socket, true); onUpgrade(remote_socket);] *)
Definition client_upgrade (t : Tunnel) : Tunnel * list Action :=
  (onUpgrade t, _socket reverse_proxy true).

(** The body of [handshake]. [None]: [data.slice] threw. *)
Definition run_handshake (cl : Closure) (data : Payload) (t : Tunnel)
  : option (Tunnel * list Action) :=
  let delimiter := Js.chars (CRLF +:+ CRLF) in
  (* var sdata = data.toString(); *)
  let sdata := match data with Bytes b => Js.utf8_decode b | Text s => s end in
  (* sdata = sdata.substr(0, sdata.search(CRLF + CRLF)); *)
  let sdata := Js.substr sdata 0 (Js.search delimiter sdata) in
  (* data = data.slice(Buffer.byteLength(sdata), data.length); *)
  let rest :=
    match data with
    | Bytes b => Bytes <$> Js.slice b (Js.byteLength sdata) (length b)
    | Text s => Some (Text (drop (Js.byteLength sdata) s))
    end in
  match rest with
  | None => None
  | Some data =>
      (* sdata = sdata.replace(remote_host, host).replace(remote_host, host); *)
      let pat := Js.chars (remote_host cl) in
      let rep := Js.chars (Js.to_string (host cl)) in
      let sdata := Js.replace pat rep (Js.replace pat rep sdata) in
      let '(t, trace) :=
        match write socket (Text sdata) t with
        | Some w1 =>
            match write socket data t with
            | Some w2 => (t, w1 ++ w2)
            | None =>
                let '(t, e1) := end_ request t in
                let '(t, e2) := end_ socket t in
                (t, w1 ++ e1 ++ e2)
            end
        | None =>
            let '(t, e1) := end_ request t in
            let '(t, e2) := end_ socket t in
            (t, e1 ++ e2)
        end in
      let t := on socket "error" socket_error t in
      let t := removeListener request_socket "data" handshake t in
      Some (t, trace)
  end.

(** A listener called with [data]. *)
Definition call (cl : Closure) (h : Handler) (data : Payload) (t : Tunnel)
  : option (Tunnel * list Action) :=
  match h with
  | handshake => run_handshake cl data t
  | socket_error => Some (end_ request t)
  | _r_data =>
      if socket_writable t then
        match write socket data t with
        | Some w => Some (t, w)
        | None =>
            let '(t, e1) := end_ socket t in
            let '(t, e2) := end_ reverse_proxy t in
            Some (t, e1 ++ e2)
        end
      else Some (t, [])
  | _data =>
      match write reverse_proxy data t with
      | Some w => Some (t, w)
      | None =>
          let '(t, e1) := end_ reverse_proxy t in
          let '(t, e2) := end_ socket t in
          Some (t, e1 ++ e2)
      end
  | _r_close =>
      let '(t, e) := end_ socket t in
      Some (detach t, e)
  | _close =>
      let '(t, e) := end_ reverse_proxy t in
      Some (detach t, e)
  end.

(** [c.emit(name, data)]: the listeners registered at the time of the
    call, in order; an exception that escapes a listener ends it. *)
Definition emit (cl : Closure) (c : Conn) (name : string) (data : Payload) (t : Tunnel)
  : option (Tunnel * list Action) :=
  foldl (fun acc h =>
           match acc with
           | None => None
           | Some (t, trace) =>
               match call cl h data t with
               | None => None
               | Some (t, trace') => Some (t, trace ++ trace')
               end
           end)
        (Some (t, [])) (Events.listeners name (emitter c t)).

(** The events of a session, one after the other. *)
Fixpoint session (cl : Closure) (evs : list (Conn * string * Payload)) (t : Tunnel)
  : option (Tunnel * list Action) :=
  match evs with
  | [] => Some (t, [])
  | (c, name, data) :: evs =>
      match emit cl c name data t with
      | None => None
      | Some (t, trace) =>
          match session cl evs t with
          | None => None
          | Some (t, trace') => Some (t, trace ++ trace')
          end
      end
  end.

(** The relay listeners a session has, of the four registered by
    [onUpgrade]. *)
Definition relay_listeners (t : Tunnel) : list (Conn * string * Handler) :=
  map (fun x => (reverse_proxy, x.1, x.2))
      (filter (fun x => x.2 ∈ [_r_data; _r_close]) (on_reverse_proxy t))
  ++ map (fun x => (socket, x.1, x.2))
      (filter (fun x => x.2 ∈ [_data; _close]) (on_socket t)).
End WebSocket.

(** An upgrade request, a backend on port 80 of the host the proxy itself
    is reached at, and the backend's answer to the upgrade. *)
Module TunnelExample.
Import WebSocket.

Definition upgrade_request : Request :=
  mkRequest "GET" "/chat"
    {[ "upgrade" := "WebSocket"; "connection" := "Upgrade";
       "host" := "localhost:8080"; "origin" := "http://localhost:8080" ]}.

(** [remote_host] is [localhost]; [host] is [localhost:8080]. *)
Definition closure : Closure :=
  mkClosure (Some "localhost:8080") "localhost"
    {[ "upgrade" := "WebSocket"; "connection" := "Upgrade";
       "host" := "localhost:8080"; "origin" := "http://localhost:8080";
       "Host" := "localhost"; "Origin" := "http://localhost" ]}.

(** The text of the backend's answer, up to the empty line. *)
Definition answer : string :=
  "HTTP/1.1 101 WebSocket Protocol Handshake" +:+ CRLF
  +:+ "Upgrade: WebSocket" +:+ CRLF
  +:+ "Connection: Upgrade" +:+ CRLF
  +:+ "Sec-WebSocket-Origin: http://localhost" +:+ CRLF
  +:+ "Sec-WebSocket-Location: ws://localhost/chat".

(** The bytes after it: the empty line and a checksum that is no text. *)
Definition checksum : list N :=
  [13; 10; 13; 10; 255; 0; 128; 36; 38; 200; 13; 10; 13; 10; 97; 254]%N.

Definition first_chunk : Payload := Bytes (Js.chars answer ++ checksum).

(** What the client would get if both tokens were put back. *)
Definition answer_with_both_replaced : string :=
  "HTTP/1.1 101 WebSocket Protocol Handshake" +:+ CRLF
  +:+ "Upgrade: WebSocket" +:+ CRLF
  +:+ "Connection: Upgrade" +:+ CRLF
  +:+ "Sec-WebSocket-Origin: http://localhost:8080" +:+ CRLF
  +:+ "Sec-WebSocket-Location: ws://localhost:8080/chat".

(** What it gets. *)
Definition answer_relayed : string :=
  "HTTP/1.1 101 WebSocket Protocol Handshake" +:+ CRLF
  +:+ "Upgrade: WebSocket" +:+ CRLF
  +:+ "Connection: Upgrade" +:+ CRLF
  +:+ "Sec-WebSocket-Origin: http://localhost:8080:8080" +:+ CRLF
  +:+ "Sec-WebSocket-Location: ws://localhost/chat".

(** Both sockets open, nobody listening yet. *)
Definition fresh : Tunnel := mkTunnel true true [] [] [].

(** After the callback of [p.getClient]: [handshake] listens. *)
Definition handshaking : Tunnel :=
  (getClient_callback closure upgrade_request (Bytes []) fresh).1.

(** After the handshake and the client's ['upgrade']. *)
Definition established : Tunnel :=
  mkTunnel true true
    [("error", socket_error); ("data", _data); ("end", _close)]
    [("data", _r_data); ("end", _r_close)]
    [].

(** The tunnel after the backend has closed. *)
Definition half_closed : Tunnel :=
  mkTunnel false true
    [("error", socket_error); ("end", _close)]
    [("end", _r_close)]
    [].
End TunnelExample.

(** ** The relay of a tunnel, and the pool's list of clients *)
Module TunnelTrace.
Import WebSocket.

(** A ['data'] event on a socket. *)
Definition data_event (ev : Conn * Payload) : Conn * string * Payload :=
  (ev.1, "data", ev.2).

(** The socket at the other end of the relay. *)
Definition other (c : Conn) : Conn :=
  match c with
  | socket => reverse_proxy
  | _ => socket
  end.

(** The same data, written to the other socket. *)
Definition relayed (ev : Conn * Payload) : Action := Write (other ev.1) ev.2.

(** [Array.prototype.indexOf]: the first index of [x], or -1. *)
Fixpoint indexOf (x : nat) (l : list nat) : Z :=
  match l with
  | [] => (-1)%Z
  | y :: l =>
      if decide (y = x) then 0%Z
      else let i := indexOf x l in if (i <? 0)%Z then (-1)%Z else (i + 1)%Z
  end.

(** [Array.prototype.splice (start, 1)]: a negative [start] counts from
    the end. *)
Definition splice_one (start : Z) (l : list nat) : list nat :=
  let len := Z.of_nat (length l) in
  let start := if (start <? 0)%Z then Z.max (len + start) 0 else Z.min start len in
  take (Z.to_nat start) l ++ drop (Z.to_nat start + 1) l.

(** [errorListener] of the callback given to [p.getClient], on the list
    [p.clients] and the tunnel:
    [p.clients.splice(p.clients.indexOf(client), 1); socket.end();]
    (before that it takes itself off the client). *)
Definition errorListener (client : nat) (clients : list nat) (t : Tunnel)
  : list nat * (Tunnel * list Action) :=
  (splice_one (indexOf client clients) clients, end_ socket t).
End TunnelTrace.

(** ** Reading the trace of a cycle *)
Module ProxyTrace.
Section trace.
Context {Err : Type}.
Import Proxy.

(** The events a [buffer] argument holds, if it is a handle. *)
Definition replayed (buffer : Value) : list ReqEvent :=
  match buffer with BufferHandle events => events | _ => [] end.

(** What an action gives the outbound request. *)
Definition outbound (a : @Action Err) : option ReqEvent :=
  match a with
  | RpWrite chunk => Some (Data chunk)
  | RpEnd => Some End
  | _ => None
  end.


(** The event of the inbound request an event is, if any. *)
Definition inbound (ev : @Event Err) : option ReqEvent :=
  match ev with Inbound e => Some e | _ => None end.



Definition is_error (ev : @Event Err) : bool :=
  match ev with Error _ => true | _ => false end.

(** The actions of the shadow path. *)
Definition is_shadow (a : @Action Err) : bool :=
  match a with FwdHttpRequest _ _ | FwdWrite _ | FwdEnd => true | _ => false end.

(** A trace without the actions of the shadow path. *)
Definition primary (t : list (@Action Err)) : list (@Action Err) :=
  filter (fun a => is_shadow a = false) t.

Definition is_forward_error (ev : @Event Err) : bool :=
  match ev with ForwardError _ => true | _ => false end.

(** The events of a cycle without the errors of the shadow request. *)
Definition without_forward_errors (evs : list (@Event Err)) : list (@Event Err) :=
  filter (fun ev => is_forward_error ev = false) evs.

(** The requests a trace opens: whether to the forward address, and the
    options. *)
Definition opened (a : @Action Err) : option (bool * Options) :=
  match a with
  | HttpRequest o _ => Some (false, o)
  | FwdHttpRequest o _ => Some (true, o)
  | _ => None
  end.

(** The same proxy with no forward address, with no routing table. *)
Definition without_forward (self : @HttpProxy Err) : @HttpProxy Err :=
  mkHttpProxy (proxyTable self) None (proxyErrorListeners self) (NODE_ENV self)
              (maxSockets self).

Definition without_table (self : @HttpProxy Err) : @HttpProxy Err :=
  mkHttpProxy None (forward self) (proxyErrorListeners self) (NODE_ENV self)
              (maxSockets self).

(** The same cycle without the listeners of [_forwardRequest]. *)
Definition unforwarded (st : State) : State :=
  mkState (store st) (errState st) (errorListener st) (awaitingResponse st)
          (responseListeners st) (requestListeners st) false.
End trace.
End ProxyTrace.

(** ** The server: [createServer] *)
Module Server.
Section server.
Context {Err : Type}.
Import Proxy.

(** An options object: [router], when it is set, by the lookup of the
    table [new ProxyTable (options.router, ...)] builds from it, and
    [forward]. *)
Record ProxyOptions := mkProxyOptions {
  router : option (Request → gmap nat (gmap string string) → option Location);
  options_forward : option Location
}.

(** An argument of [createServer]. *)
Inductive Arg :=
| Plain (v : Value)                  (* undefined, a number, a string *)
| Object (options : ProxyOptions)    (* an options object *)
| Function (f : nat).                (* a function, by its name *)

Definition arg_truthy (a : Arg) : bool :=
  match a with
  | Plain v => truthy v
  | Object _ | Function _ => true
  end.

Definition is_function (a : Arg) : bool :=
  match a with
  | Function _ => true
  | _ => false
  end.

(** [a || {}], for an argument that may be missing. *)
Definition or_empty (a : option Arg) : Arg :=
  match a with
  | Some a => if arg_truthy a then a else Object (mkProxyOptions None None)
  | None => Object (mkProxyOptions None None)
  end.

(** [options.router] and [options.forward]; a number, a string and a
    function have neither. *)
Definition router_of (options : Arg)
  : option (Request → gmap nat (gmap string string) → option Location) :=
  match options with
  | Object o => router o
  | _ => None
  end.

Definition forward_of (options : Arg) : option Location :=
  match options with
  | Object o => options_forward o
  | _ => None
  end.

(** [new HttpProxy (options)]: [options = options || {}], a table when
    [options.router] is set, and no listener yet. *)
Definition new_HttpProxy (NODE_ENV : option string) (maxSockets : Z)
    (options : option Arg) : @HttpProxy Err :=
  let options := or_empty options in
  mkHttpProxy (router_of options) (forward_of options) [] NODE_ENV maxSockets.

(** The variables the listeners of the server close over. *)
Record Server := mkServer {
  callback : option nat;
  port : Arg;
  host : Arg;
  proxy : @HttpProxy Err
}.

(** [exports.createServer], up to [proxy = new HttpProxy (options)];
    [None] when it throws
    ['Cannot create server with no router and no callback']. *)
Definition createServer (NODE_ENV : option string) (maxSockets : Z)
    (arguments : list Arg) : option Server :=
  (* callback = typeof args[args.length - 1] === 'function' && args.pop() *)
  let '(callback, args) :=
    match last arguments with
    | Some (Function f) => (Some f, removelast arguments)
    | _ => (None, arguments)
    end in
  if bool_decide (2 ≤ length args)%nat then
    let port := default (Plain undefined) (args !! 0%nat) in
    let host := default (Plain undefined) (args !! 1%nat) in
    let options := or_empty (args !! 2%nat) in
    Some (mkServer callback port host
            (new_HttpProxy NODE_ENV maxSockets (Some options)))
  else if bool_decide (length args = 1%nat) then
    let options := or_empty (args !! 0%nat) in
    if negb (bool_decide (is_Some (router_of options)))
       && negb (bool_decide (is_Some callback))
    then None
    else Some (mkServer callback (Plain undefined) (Plain undefined)
                 (new_HttpProxy NODE_ENV maxSockets (Some options)))
  else
    Some (mkServer callback (Plain undefined) (Plain undefined)
            (new_HttpProxy NODE_ENV maxSockets None)).

(** What the listener of ['request'] does with a request. *)
Inductive Call :=
| callback_ (f : nat)                (* callback(req, res, proxy) *)
| proxyRequest_ (port host : Arg)    (* proxy.proxyRequest(req, res, port, host) *)
| proxyRequest_routed                (* proxy.proxyRequest(req, res) *)
| throw_.                            (* 'Cannot proxy without port, host, or router.' *)

Definition request_listener (s : Server) : Call :=
  match callback s with
  | Some f => callback_ f
  | None =>
      if arg_truthy (port s) && arg_truthy (host s) then
        proxyRequest_ (port s) (host s)
      else if bool_decide (is_Some (proxyTable (proxy s))) then proxyRequest_routed
      else throw_
  end.
End server.
End Server.

(** Proxies, servers and events to run the cycle and the server on. *)
Module CycleExample.
Import Proxy.

(** The header object of [ProxyExample.store0]. *)
Definition headers0 : gmap string string :=
  {[ "connection" := "keep-alive"; "host" := "example.com" ]}.

(** A routing table that sends every request to [backend:8080]. *)
Definition table (req : Request) (σ : gmap nat (gmap string string)) : option Location :=
  Some (mkLocation "backend" 8080).

Definition to_backend : @HttpProxy string :=
  mkHttpProxy (Some table) None [] None 100.

(** A forward address and no table. *)
Definition shadowing : @HttpProxy string :=
  mkHttpProxy None (Some (mkLocation "shadow" 9000)) [] None 100.

(** A request body in two chunks, the second held in a [buffer] handle. *)
Definition held : Value := BufferHandle [Data "a"].

Definition upload : list (@Event string) :=
  [Inbound (Data "b"); Response 200 ∅; Inbound End].

(** The outbound request fails between two chunks. *)
Definition failing_upload : list (@Event string) :=
  [Inbound (Data "b"); Error "ECONNRESET"; Inbound (Data "c"); Inbound End].


(** [createServer (8080, 'backend', { router: ... })] and what it makes. *)
Definition target_and_router : list (@Server.Arg) :=
  [Server.Plain (Num 8080); Server.Plain (Str "backend");
   Server.Object (Server.mkProxyOptions (Some table) None)].

Definition to_target : @Server.Server string :=
  Server.mkServer None (Server.Plain (Num 8080)) (Server.Plain (Str "backend"))
                  to_backend.
End CycleExample.

(** * Properties *)

(** ** Listeners of an emitter *)
Section emitter_facts.
Context {L : Type} `{EqDecision L}.
Implicit Types (e : @Events.Emitter L) (l : L) (name : string).

Lemma removeListener_absent name l e :
  (name, l) ∉ e → Events.removeListener name l e = e.
Proof.
  induction e as [|x e IH]; simpl; [done|].
  intros Hn. apply not_elem_of_cons in Hn as [Hx He].
  destruct (decide (x = (name, l))); [congruence|].
  by rewrite IH.
Qed.

Lemma removeListener_app_absent name l e1 e2 :
  (name, l) ∉ e1 →
  Events.removeListener name l (e1 ++ e2) = e1 ++ Events.removeListener name l e2.
Proof.
  induction e1 as [|x e1 IH]; simpl; [done|].
  intros Hn. apply not_elem_of_cons in Hn as [Hx He].
  destruct (decide (x = (name, l))); [congruence|].
  by rewrite IH.
Qed.

Lemma removeListener_head name l e :
  Events.removeListener name l ((name, l) :: e) = e.
Proof. simpl. by rewrite decide_True. Qed.

Lemma listeners_app name e1 e2 :
  Events.listeners name (e1 ++ e2) = Events.listeners name e1 ++ Events.listeners name e2.
Proof.
  induction e1 as [|[n l] e1 IH]; simpl; [done|].
  destruct (decide (n = name)); simpl; by rewrite IH.
Qed.
End emitter_facts.

(** ** The event buffer *)
Section buffer_facts.
Context {V : Type}.
Import Buffer.
Implicit Types (st : State V) (ev : Captured V) (ds : list (string * nat)).

Lemma downstream_app ds1 ds2 : downstream (ds1 ++ ds2) = downstream ds1 ++ downstream ds2.
Proof. apply map_app. Qed.

Lemma capture_not_downstream name l ds :
  (l = onData ∨ l = onEnd) → (name, l) ∉ downstream ds.
Proof.
  intros Hl Hin. apply list_elem_of_fmap in Hin as ([n k] & Heq & _).
  simpl in Heq. destruct Hl; congruence.
Qed.

Lemma listeners_downstream name ds :
  Events.listeners name (downstream ds)
  = map (fun d => Downstream d.2) (filter (fun d => d.1 = name) ds).
Proof.
  induction ds as [|[n k] ds IH]; simpl; [done|].
  rewrite filter_cons. simpl.
  destruct (decide (n = name)); simpl; by rewrite IH.
Qed.

Lemma deliver_app ds (evs1 evs2 : list (Captured V)) :
  deliver ds (evs1 ++ evs2) = deliver ds evs1 ++ deliver ds evs2.
Proof. unfold deliver. apply flat_map_app. Qed.

(** Calling downstream listeners only appends to [seen]. *)
Lemma call_downstream name data enc (ks : list (string * nat)) st :
  foldl (fun s l => call name data enc l s) st (map (fun d => Downstream d.2) ks)
  = mkState (obj st) (events st)
            (seen st ++ map (fun d => (d.2, (name, data, enc))) ks).
Proof.
  revert st. induction ks as [|d ks IH]; intros st; simpl.
  - rewrite app_nil_r. by destruct st.
  - rewrite IH. simpl. by rewrite <- app_assoc.
Qed.

(** An event of the stream, emitted while the two capture listeners sit
    between the downstream listeners [ds1] and [ds2]. *)
Lemma emit_capturing ds1 ds2 (e : Kind * V * V) st :
  obj st = downstream ds1 ++ [("data", onData); ("end", onEnd)] ++ downstream ds2 →
  emit (captured e) st
  = mkState (obj st) (events st ++ [captured e])
            (seen st ++ deliver (ds1 ++ ds2) [captured e]).
Proof.
  intros Hobj. destruct e as [[k data] enc]. unfold emit, captured.
  rewrite Hobj, !listeners_app, !listeners_downstream, !foldl_app, !call_downstream.
  unfold deliver. simpl. rewrite app_nil_r, filter_app, map_app.
  destruct k; simpl; rewrite ?call_downstream; simpl;
    by rewrite <- ?app_assoc, ?Hobj.
Qed.

Lemma emit_all_capturing ds1 ds2 (evs : list (Kind * V * V)) st :
  obj st = downstream ds1 ++ [("data", onData); ("end", onEnd)] ++ downstream ds2 →
  emit_all (map captured evs) st
  = mkState (obj st) (events st ++ map captured evs)
            (seen st ++ deliver (ds1 ++ ds2) (map captured evs)).
Proof.
  revert st. induction evs as [|e evs IH]; intros st Hobj; simpl.
  - rewrite !app_nil_r. by destruct st.
  - unfold emit_all in *. simpl. rewrite (emit_capturing ds1 ds2) by done.
    rewrite IH by done. simpl.
    by rewrite app_nil_r, <- !app_assoc.
Qed.

Lemma obj_on_all more st : obj (on_all more st) = obj st ++ downstream more.
Proof.
  revert st. induction more as [|d more IH]; intros st; simpl.
  - by rewrite app_nil_r.
  - unfold on_all in *. simpl. rewrite IH. simpl. unfold Events.on.
    by rewrite <- app_assoc.
Qed.

Lemma events_on_all more st : events (on_all more st) = events st.
Proof.
  revert st. induction more as [|d more IH]; intros st; [done|].
  unfold on_all in *. simpl. by rewrite IH.
Qed.

Lemma seen_on_all more st : seen (on_all more st) = seen st.
Proof.
  revert st. induction more as [|d more IH]; intros st; [done|].
  unfold on_all in *. simpl. by rewrite IH.
Qed.

(** With no capture listener left, an event only reaches [seen]. *)
Lemma emit_detached ds ev st :
  obj st = downstream ds →
  emit ev st = mkState (obj st) (events st) (seen st ++ deliver ds [ev]).
Proof.
  intros Hobj. destruct ev as [[name data] enc]. unfold emit.
  rewrite Hobj, listeners_downstream, call_downstream.
  unfold deliver. simpl. by rewrite app_nil_r, Hobj.
Qed.

(** The loop of [resume], from index [i] on. *)
Lemma replay_loop ds (n : nat) : ∀ (i : nat) st,
  obj st = downstream ds →
  i + n = length (events st) →
  foldl (fun s j => match events s !! j with
                    | Some ev => emit ev s
                    | None => s
                    end) st (seq i n)
  = mkState (obj st) (events st) (seen st ++ deliver ds (drop i (events st))).
Proof.
  induction n as [|n IH]; intros i st Hobj Hlen; simpl.
  - rewrite drop_ge by lia. simpl. rewrite app_nil_r. by destruct st.
  - destruct (events st !! i) as [ev|] eqn:Hev.
    2:{ apply lookup_ge_None in Hev. lia. }
    rewrite (emit_detached ds) by done.
    rewrite IH; simpl; [|done|lia].
    rewrite (drop_S _ _ _ Hev).
    change (ev :: drop (S i) (events st)) with ([ev] ++ drop (S i) (events st)).
    by rewrite deliver_app, <- app_assoc.
Qed.

(** [resume] on a handle whose listeners sit between [ds1] and [ds2]. *)
Lemma resume_attached ds1 ds2 st :
  obj st = downstream ds1 ++ [("data", onData); ("end", onEnd)] ++ downstream ds2 →
  resume st = mkState (downstream (ds1 ++ ds2)) (events st)
                      (seen st ++ deliver (ds1 ++ ds2) (events st)).
Proof.
  intros Hobj. unfold resume.
  assert (Hend : end_ st = mkState (downstream (ds1 ++ ds2)) (events st) (seen st)).
  { unfold end_. rewrite Hobj. f_equal.
    rewrite removeListener_app_absent by (apply capture_not_downstream; auto).
    change ([("data", onData); ("end", onEnd)] ++ downstream ds2)
      with (("data", onData) :: ("end", onEnd) :: downstream ds2).
    rewrite removeListener_head.
    rewrite removeListener_app_absent by (apply capture_not_downstream; auto).
    rewrite removeListener_head.
    by rewrite downstream_app. }
  rewrite Hend. simpl.
  rewrite (replay_loop (ds1 ++ ds2)); simpl; [done|done|lia].
Qed.

(** [resume] on a handle whose listeners are gone already. *)
Lemma resume_detached ds st :
  obj st = downstream ds →
  resume st = mkState (downstream ds) (events st) (seen st ++ deliver ds (events st)).
Proof.
  intros Hobj. unfold resume.
  assert (Hend : end_ st = mkState (downstream ds) (events st) (seen st)).
  { unfold end_. rewrite Hobj. f_equal.
    rewrite (removeListener_absent "data") by (apply capture_not_downstream; auto).
    by rewrite removeListener_absent by (apply capture_not_downstream; auto). }
  rewrite Hend. simpl.
  rewrite (replay_loop ds); simpl; [done|done|lia].
Qed.
End buffer_facts.

(** C2 (as amended). A handle made by [buffer(obj)] logs every ['data'] and
    ['end'] event of the source, in order; [resume()] takes the two capture
    listeners off and emits the logged events on the source, within the call,
    each once and in the order of capture, so the listeners of the source
    receive exactly them; the log is kept, and a second [resume()] emits the
    same events once more. *)
Theorem C2_resume_replays_log_each_time {V : Type}
    (ds0 more : list (string * nat)) (evs : list (Buffer.Kind * V * V))
    (log0 : list (Buffer.Captured V)) (seen0 : list (nat * Buffer.Captured V)) :
  let st1 := Buffer.buffer (Buffer.mkState (Buffer.downstream ds0) log0 seen0) in
  let st2 := Buffer.emit_all (map Buffer.captured evs) st1 in
  let st3 := Buffer.on_all more st2 in
  let st4 := Buffer.resume st3 in
  let st5 := Buffer.resume st4 in
  Buffer.events st3 = map Buffer.captured evs
  ∧ Buffer.obj st4 = Buffer.downstream (ds0 ++ more)
  ∧ Buffer.seen st4
    = Buffer.seen st3 ++ Buffer.deliver (ds0 ++ more) (map Buffer.captured evs)
  ∧ Buffer.seen st5
    = Buffer.seen st4 ++ Buffer.deliver (ds0 ++ more) (map Buffer.captured evs).
Proof.
  intros st1 st2 st3 st4 st5.
  assert (H1 : Buffer.obj st1
               = Buffer.downstream ds0
                 ++ [("data", Buffer.onData); ("end", Buffer.onEnd)]
                 ++ Buffer.downstream []).
  { subst st1. simpl. unfold Events.on. by rewrite <- app_assoc. }
  assert (H2 : st2 = Buffer.mkState (Buffer.obj st1) (map Buffer.captured evs)
                       (seen0 ++ Buffer.deliver (ds0 ++ [])
                                   (map Buffer.captured evs))).
  { subst st2. by rewrite (emit_all_capturing ds0 []). }
  assert (H3o : Buffer.obj st3
                = Buffer.downstream ds0
                  ++ [("data", Buffer.onData); ("end", Buffer.onEnd)]
                  ++ Buffer.downstream more).
  { subst st3. rewrite obj_on_all, H2. cbn [Buffer.obj]. rewrite H1.
    cbn [Buffer.downstream map]. by rewrite app_nil_r, <- !app_assoc. }
  assert (H3e : Buffer.events st3 = map Buffer.captured evs).
  { subst st3. by rewrite events_on_all, H2. }
  assert (H4 : st4 = Buffer.mkState (Buffer.downstream (ds0 ++ more))
                       (map Buffer.captured evs)
                       (Buffer.seen st3
                        ++ Buffer.deliver (ds0 ++ more) (map Buffer.captured evs))).
  { subst st4. rewrite (resume_attached ds0 more) by done. by rewrite H3e. }
  split; [done|]. split; [by rewrite H4|]. split; [by rewrite H4|].
  subst st5. rewrite (resume_detached (ds0 ++ more)) by (by rewrite H4).
  by rewrite H4.
Qed.

(** C2 (as stated) fails: one chunk is captured, a listener is registered,
    and the second [resume()] hands the chunk to the listener again. *)
Lemma C2_second_resume_delivers_again :
  ¬ Buffer.second_resume_is_noop
      (Buffer.on "data" 0
         (Buffer.emit ("data", "chunk", "utf8")
            (Buffer.buffer (Buffer.mkState [] [] [])))).
Proof. unfold Buffer.second_resume_is_noop. vm_compute. discriminate. Qed.

(** Membership in a trace that is written out: one goal per element. *)
Ltac in_trace H :=
  repeat first
    [ apply elem_of_app in H as [H|H]
    | apply elem_of_cons in H as [H|H]
    | apply elem_of_nil in H; destruct H ];
  try subst.

(** ** The proxy cycle *)
Section proxy_facts.
Context {Err : Type} (JSON_stringify : Err → string).
Import Proxy.
Implicit Types (self : @HttpProxy Err) (req : Request) (st : State)
  (ev : @Event Err) (evs : list (@Event Err)) (t : list (@Action Err))
  (σ : gmap nat (gmap string string)).

#[local] Abbreviation step := (Proxy.step JSON_stringify).
#[local] Abbreviation run := (Proxy.run JSON_stringify).
#[local] Abbreviation proxyRequest := (Proxy.proxyRequest JSON_stringify).
#[local] Abbreviation cycle := (Proxy.cycle JSON_stringify).

Lemma count_app p t1 t2 : count p (t1 ++ t2) = count p t1 + count p t2.
Proof. induction t1 as [|a t1 IH]; simpl; [done|]. rewrite IH. lia. Qed.

Lemma count_none p t : (∀ a, a ∈ t → p a = false) → count p t = 0.
Proof.
  induction t as [|a t IH]; intros Hp; simpl; [done|].
  rewrite (Hp a) by apply list_elem_of_here.
  rewrite IH; [done|]. intros b Hb. apply Hp. by apply list_elem_of_further.
Qed.

Lemma run_cons self req st ev evs :
  run self req st (ev :: evs)
  = ((run self req (step self req st ev).1 evs).1,
     (step self req st ev).2 ++ (run self req (step self req st ev).1 evs).2).
Proof.
  simpl. destruct (step self req st ev) as [st1 t1]. simpl.
  by destruct (run self req st1 evs).
Qed.

Lemma run_app self req evs1 : ∀ st evs2,
  run self req st (evs1 ++ evs2)
  = ((run self req (run self req st evs1).1 evs2).1,
     (run self req st evs1).2 ++ (run self req (run self req st evs1).1 evs2).2).
Proof.
  induction evs1 as [|ev evs1 IH]; intros st evs2.
  - simpl. by destruct (run self req st evs2).
  - rewrite <- app_comm_cons, !run_cons, IH. simpl. by rewrite app_assoc.
Qed.

(** The listeners never touch the header objects. *)
Lemma step_store self req st ev : store (step self req st ev).1 = store st.
Proof.
  destruct ev as [[chunk|]|status hs|chunk| |err|err]; simpl; try done.
  - destruct (awaitingResponse st); [|done]. unfold onResponse.
    by destruct (bool_decide (status = 304%Z)).
  - by destruct (responseListeners st).
  - destruct (responseListeners st), (errState st); done.
  - destruct (errorListener st); [|done]. unfold proxyError.
    destruct (emit_proxyError self err req) as [[|] n]; done.
Qed.

Lemma run_store self req evs : ∀ st, store (run self req st evs).1 = store st.
Proof.
  induction evs as [|ev evs IH]; intros st; [done|].
  rewrite run_cons. simpl. by rewrite IH, step_store.
Qed.

(** Once set, the flag stays set. *)
Lemma step_errState self req st ev :
  errState st = true → errState (step self req st ev).1 = true.
Proof.
  intros Hs. destruct ev as [[chunk|]|status hs|chunk| |err|err]; simpl; try done.
  - destruct (awaitingResponse st); [|done]. unfold onResponse.
    by destruct (bool_decide (status = 304%Z)).
  - by destruct (responseListeners st).
  - destruct (responseListeners st); [|done]. by rewrite Hs.
  - destruct (errorListener st); [|done]. unfold proxyError.
    destruct (emit_proxyError self err req) as [[|] n]; done.
Qed.

Lemma run_errState self req evs : ∀ st,
  errState st = true → errState (run self req st evs).1 = true.
Proof.
  induction evs as [|ev evs IH]; intros st Hs; [done|].
  rewrite run_cons. simpl. by apply IH, step_errState.
Qed.

Lemma consumer_not_outbound (ops : list ResOp) (a : @Action Err) :
  a ∈ map Consumer ops → is_outbound a = false ∧ is_engine_end a = false
                         ∧ (∀ chunk, a ≠ Res (write chunk)).
Proof.
  intros Ha. apply list_elem_of_fmap in Ha as (op & -> & _). done.
Qed.

Lemma notified_by_listeners self err req (a : @Action Err) :
  a ∈ (emit_proxyError self err req).2 →
  is_outbound a = false ∧ is_engine_end a = false ∧ (∀ chunk, a ≠ Res (write chunk)).
Proof.
  unfold emit_proxyError. simpl. intros Ha.
  apply elem_of_cons in Ha as [->|Ha]; [done|].
  apply list_elem_of_In, in_flat_map in Ha as (l & _ & Ha).
  apply list_elem_of_In in Ha. by apply consumer_not_outbound in Ha.
Qed.

(** With the flag set, no listener writes to or ends the outbound request. *)
Lemma step_no_outbound self req st ev a :
  errState st = true → a ∈ (step self req st ev).2 → is_outbound a = false.
Proof.
  intros Hs. destruct ev as [[chunk|]|status hs|chunk| |err|err]; simpl.
  - rewrite Hs. destruct (forwarding st), (requestListeners st); simpl;
      intros Ha; by in_trace Ha.
  - rewrite Hs. destruct (forwarding st), (requestListeners st); simpl;
      intros Ha; by in_trace Ha.
  - destruct (awaitingResponse st); [|intros Ha; by in_trace Ha]. unfold onResponse.
    destruct (bool_decide (status = 304%Z)); simpl; intros Ha; by in_trace Ha.
  - destruct (responseListeners st); [|intros Ha; by in_trace Ha].
    destruct (bool_decide (method req ≠ "HEAD")); simpl; intros Ha; by in_trace Ha.
  - destruct (responseListeners st); [|intros Ha; by in_trace Ha]. rewrite Hs.
    intros Ha; by in_trace Ha.
  - destruct (errorListener st); [|intros Ha; by in_trace Ha]. unfold proxyError.
    pose proof (notified_by_listeners self err req a) as Hn.
    destruct (emit_proxyError self err req) as [[|] n]; simpl in Hn |- *.
    + intros Ha. by apply Hn.
    + destruct (bool_decide (method req ≠ "HEAD"));
        [destruct (bool_decide (NODE_ENV self = Some "production"))|];
        intros Ha; in_trace Ha; try done; by apply Hn.
  - intros Ha; by in_trace Ha.
Qed.

Lemma run_no_outbound self req evs : ∀ st a,
  errState st = true → a ∈ (run self req st evs).2 → is_outbound a = false.
Proof.
  induction evs as [|ev evs IH]; intros st a Hs; [set_solver|].
  rewrite run_cons. simpl. rewrite elem_of_app. intros [Ha|Ha].
  - by eapply step_no_outbound.
  - eapply IH; [|done]. by apply step_errState.
Qed.

(** Replaying buffered request events changes no variable of the cycle
    and touches the inbound response nowhere. *)
Lemma run_inbound self req (es : list ReqEvent) : ∀ st,
  (run self req st (map Inbound es)).1 = st
  ∧ ∀ a, a ∈ (run self req st (map Inbound es)).2 → on_response a = false.
Proof.
  induction es as [|e es IH]; intros st.
  - split; [done|]. intros a Ha. by in_trace Ha.
  - change (map Inbound (e :: es)) with (@Inbound Err e :: map Inbound es).
    rewrite run_cons.
    assert (Hst : (step self req st (Inbound e)).1 = st) by (by destruct e).
    rewrite Hst. destruct (IH st) as [IH1 IH2]. split; [done|].
    intros a Ha. simpl in Ha. apply elem_of_app in Ha as [Ha|Ha]; [|by apply IH2].
    destruct e; simpl in Ha;
      destruct (forwarding st), (requestListeners st), (errState st);
      by in_trace Ha.
Qed.

(** What a call that gets past the routing leaves behind: the flag is
    clear and the inbound response has not been touched. *)
Lemma proxyRequest_past_routing self req port host buffer σ st :
  state_of (proxyRequest self req port host buffer σ) = Some st →
  errState st = false
  ∧ ∀ a, a ∈ trace_of (proxyRequest self req port host buffer σ) → on_response a = false.
Proof.
  unfold Proxy.proxyRequest, _forwardRequest.
  repeat case_match; simplify_eq/=; intros; simplify_eq/=;
    try (split; [done|]; intros a Ha; by in_trace Ha).
  all: match goal with
       | H : Proxy.run _ _ _ ?s (map Inbound ?es) = _ |- _ =>
           pose proof (run_inbound self req es s) as [Hr1 Hr2];
           rewrite H in Hr1, Hr2; simpl in Hr1, Hr2; subst
       end.
  all: split; [done|]; intros a Ha; in_trace Ha; try done; by apply Hr2.
Qed.

Lemma count_notified self err req :
  count is_engine_end (emit_proxyError self err req).2 = 0.
Proof.
  apply count_none. intros a Ha. by apply notified_by_listeners in Ha as (_ & ? & _).
Qed.

(** How many times the engine has ended the inbound response ([n]), next
    to the flag and the error listener; [k] is what [proxyError] adds. *)
Lemma step_ends self req st ev (n : nat) :
  (∀ hs, ev ≠ Response 304 hs) →
  (errorListener st = true → errState st = false ∧ n = 0) →
  (errState st = true →
     errorListener st = false
     ∧ n = if bool_decide (proxyErrorListeners self = []) then 1 else 0) →
  (errorListener (step self req st ev).1 = true →
     errState (step self req st ev).1 = false
     ∧ n + count is_engine_end (step self req st ev).2 = 0)
  ∧ (errState (step self req st ev).1 = true →
       errorListener (step self req st ev).1 = false
       ∧ n + count is_engine_end (step self req st ev).2
         = if bool_decide (proxyErrorListeners self = []) then 1 else 0).
Proof.
  intros H304 HJ1 HJ2.
  destruct ev as [[chunk|]|status hs|chunk| |err|err]; simpl.
  - destruct (forwarding st), (requestListeners st), (errState st); simpl;
      rewrite ?Nat.add_0_r; done.
  - destruct (forwarding st), (requestListeners st), (errState st); simpl;
      rewrite ?Nat.add_0_r; done.
  - destruct (awaitingResponse st); simpl; [|rewrite Nat.add_0_r; done].
    unfold onResponse.
    destruct (decide (status = 304%Z)) as [->|Hst]; [by destruct (H304 hs eq_refl)|].
    rewrite bool_decide_false by done.
    simpl. rewrite Nat.add_0_r. done.
  - destruct (responseListeners st); simpl; [|rewrite Nat.add_0_r; done].
    destruct (bool_decide (method req ≠ "HEAD")); simpl; rewrite Nat.add_0_r; done.
  - destruct (responseListeners st); simpl; [|rewrite Nat.add_0_r; done].
    destruct (errState st) eqn:Hs; simpl.
    { rewrite Nat.add_0_r. destruct (HJ2 eq_refl) as [Hl Hn].
      split; intros; [congruence|auto]. }
    split; [done|]. intros; congruence.
  - destruct (errorListener st) eqn:Hl; simpl.
    2:{ rewrite Nat.add_0_r. split; [intros; congruence|].
        intros Hs. destruct (HJ2 Hs). auto. }
    destruct HJ1 as [_ ->]; [done|]. unfold proxyError.
    pose proof (count_notified self err req) as Hc.
    assert (Hcl : (emit_proxyError self err req).1
                  = bool_decide (proxyErrorListeners self ≠ [])) by done.
    destruct (emit_proxyError self err req) as [claimed notified].
    simpl in Hc, Hcl. subst claimed.
    destruct (decide (proxyErrorListeners self = [])) as [Hnil|Hls].
    + rewrite (bool_decide_false (_ ≠ _)) by (intros Hne; by apply Hne).
      rewrite (bool_decide_true (_ = [])) by done. simpl. rewrite !count_app, Hc.
      destruct (bool_decide (method req ≠ "HEAD"));
        [destruct (bool_decide (NODE_ENV self = Some "production"))|]; done.
    + rewrite (bool_decide_true (_ ≠ _)) by done.
      rewrite (bool_decide_false (_ = [])) by done. simpl. by rewrite Hc.
  - rewrite Nat.add_0_r. done.
Qed.

Lemma run_ends self req evs : ∀ st (n : nat),
  (∀ hs, Response 304 hs ∉ evs) →
  (errorListener st = true → errState st = false ∧ n = 0) →
  (errState st = true →
     errorListener st = false
     ∧ n = if bool_decide (proxyErrorListeners self = []) then 1 else 0) →
  errState (run self req st evs).1 = true →
  n + count is_engine_end (run self req st evs).2
  = if bool_decide (proxyErrorListeners self = []) then 1 else 0.
Proof.
  induction evs as [|ev evs IH]; intros st n H304 HJ1 HJ2 Hfin.
  - simpl in *. rewrite Nat.add_0_r. by apply HJ2.
  - rewrite run_cons in Hfin |- *. simpl in Hfin |- *.
    rewrite count_app, Nat.add_assoc.
    destruct (step_ends self req st ev n) as [HJ1' HJ2']; [|done|done|].
    { intros hs ->. apply (H304 hs), list_elem_of_here. }
    apply IH; [|done|done|done].
    intros hs Hin. apply (H304 hs). by apply list_elem_of_further.
Qed.

(** The error listener does not come back. *)
Lemma step_errorListener self req st ev :
  errorListener st = false → errorListener (step self req st ev).1 = false.
Proof.
  intros Hl. destruct ev as [[chunk|]|status hs|chunk| |err|err]; simpl; try done.
  - destruct (awaitingResponse st); [|done]. unfold onResponse.
    by destruct (bool_decide (status = 304%Z)).
  - by destruct (responseListeners st).
  - by destruct (responseListeners st), (errState st).
  - by rewrite Hl.
Qed.

(** The flag is set by [proxyError] alone, which runs with its listener
    taken off. *)
Lemma step_flag_without_listener self req st ev :
  (errState st = true → errorListener st = false) →
  errState (step self req st ev).1 = true → errorListener (step self req st ev).1 = false.
Proof.
  intros Hinv. destruct ev as [[chunk|]|status hs|chunk| |err|err]; simpl; try done.
  - destruct (awaitingResponse st); [|done]. unfold onResponse.
    by destruct (bool_decide (status = 304%Z)).
  - by destruct (responseListeners st).
  - destruct (responseListeners st); [|done].
    destruct (errState st) eqn:Hs; simpl; [by intros _; apply Hinv|done].
  - destruct (errorListener st) eqn:Hl; [|by intros _]. unfold proxyError.
    by destruct (emit_proxyError self err req) as [[|] n].
Qed.

Lemma run_flag_without_listener self req evs : ∀ st,
  (errState st = true → errorListener st = false) →
  errState (run self req st evs).1 = true → errorListener (run self req st evs).1 = false.
Proof.
  induction evs as [|ev evs IH]; intros st Hinv; [done|].
  rewrite run_cons. simpl. apply IH. by apply step_flag_without_listener.
Qed.

(** With the flag set, the listeners that look at it, and the error
    listener that is gone, leave the inbound response alone. *)
Lemma step_quiet self req st ev a :
  errState st = true → errorListener st = false →
  from_backend_response ev = false →
  a ∈ (step self req st ev).2 → on_response a = false.
Proof.
  intros Hs Hl Hev. destruct ev as [[chunk|]|status hs|chunk| |err|err]; simpl; try done.
  - rewrite Hs. destruct (forwarding st), (requestListeners st); intros Ha; by in_trace Ha.
  - rewrite Hs. destruct (forwarding st), (requestListeners st); intros Ha; by in_trace Ha.
  - rewrite Hs. destruct (responseListeners st); intros Ha; by in_trace Ha.
  - rewrite Hl. intros Ha; by in_trace Ha.
  - intros Ha; by in_trace Ha.
Qed.

Lemma run_quiet self req evs : ∀ st a,
  errState st = true → errorListener st = false →
  (∀ ev, ev ∈ evs → from_backend_response ev = false) →
  a ∈ (run self req st evs).2 → on_response a = false.
Proof.
  induction evs as [|ev evs IH]; intros st a Hs Hl Hevs; [intros Ha; by in_trace Ha|].
  rewrite run_cons. simpl. rewrite elem_of_app. intros [Ha|Ha].
  - eapply step_quiet; [done|done| |done]. apply Hevs, list_elem_of_here.
  - eapply IH; [| | |done].
    + by apply step_errState.
    + by apply step_errorListener.
    + intros ev' Hin. by apply Hevs, list_elem_of_further.
Qed.

(** For a HEAD request no listener writes a chunk to the inbound response. *)
Lemma step_head_no_write self req st ev a chunk :
  method req = "HEAD" → a ∈ (step self req st ev).2 → a ≠ Res (write chunk).
Proof.
  intros Hm. destruct ev as [[c|]|status hs|c| |err|err]; simpl.
  - destruct (forwarding st), (requestListeners st), (errState st);
      intros Ha; by in_trace Ha.
  - destruct (forwarding st), (requestListeners st), (errState st);
      intros Ha; by in_trace Ha.
  - destruct (awaitingResponse st); [|intros Ha; by in_trace Ha]. unfold onResponse.
    destruct (bool_decide (status = 304%Z)); simpl; intros Ha; by in_trace Ha.
  - destruct (responseListeners st); [|intros Ha; by in_trace Ha].
    rewrite bool_decide_false by (by intros []). intros Ha; by in_trace Ha.
  - destruct (responseListeners st), (errState st); intros Ha; by in_trace Ha.
  - destruct (errorListener st); [|intros Ha; by in_trace Ha]. unfold proxyError.
    pose proof (notified_by_listeners self err req a) as Hn.
    destruct (emit_proxyError self err req) as [[|] n]; simpl in Hn |- *.
    + intros Ha. by apply Hn.
    + rewrite bool_decide_false by (by intros []).
      intros Ha; in_trace Ha; try done. by apply Hn.
  - intros Ha; by in_trace Ha.
Qed.

Lemma run_head_no_write self req evs : ∀ st a chunk,
  method req = "HEAD" → a ∈ (run self req st evs).2 → a ≠ Res (write chunk).
Proof.
  induction evs as [|ev evs IH]; intros st a chunk Hm; [intros Ha; by in_trace Ha|].
  rewrite run_cons. simpl. rewrite elem_of_app. intros [Ha|Ha].
  - by eapply step_head_no_write.
  - by eapply IH.
Qed.

(** C3. With a routing table and no host argument, a request the table
    has no location for is answered by [writeHead(404)] and [end()], with
    no header and no body; nothing else happens in the call (no request
    is opened, towards the target or the forward address) and nothing is
    registered, so nothing happens afterwards either. *)
Theorem C3_route_miss_is_404 self req port host buffer σ getProxyLocation evs :
  proxyTable self = Some getProxyLocation →
  truthy host = false →
  getProxyLocation req σ = None →
  proxyRequest self req port host buffer σ
  = RouteMiss σ [Res (writeHead 404 ∅); Res end_]
  ∧ cycle self req port host buffer σ evs = [Res (writeHead 404 ∅); Res end_].
Proof.
  intros Htable Hhost Hmiss.
  assert (Hc : proxyRequest self req port host buffer σ
               = RouteMiss σ [Res (writeHead 404 ∅); Res end_]).
  { unfold Proxy.proxyRequest. by rewrite Htable, Hhost, Hmiss. }
  split; [done|]. unfold Proxy.cycle. by rewrite Hc.
Qed.

(** C5. For a HEAD request the engine never calls [res.write]: not in the
    call, not for a chunk of the backend response, not in the answer to
    an error. *)
Theorem C5_HEAD_gets_no_body self req port host buffer σ evs chunk :
  method req = "HEAD" →
  Res (write chunk) ∉ cycle self req port host buffer σ evs.
Proof.
  intros Hm Hin. unfold Proxy.cycle in Hin.
  destruct (state_of (proxyRequest self req port host buffer σ)) as [st|] eqn:Hst.
  - apply elem_of_app in Hin as [Hin|Hin].
    + apply (proxyRequest_past_routing _ _ _ _ _ _ _ Hst) in Hin. done.
    + by apply (run_head_no_write self req evs st _ chunk Hm) in Hin.
  - unfold Proxy.proxyRequest, _forwardRequest in *.
    repeat case_match; simplify_eq/=; by in_trace Hin.
Qed.

(** C9 (as amended). While [proxyError] is registered, an error of the
    outbound request runs it once: the flag is set, the listener is gone
    (a later error runs nothing), and ['proxyError'] is emitted with the
    error and the request.  With a listener of ['proxyError'] the engine
    does nothing more.  With none it writes the head 500 with
    [Content-Type: text/plain], then, unless the method is HEAD, one
    chunk (the fixed text when [NODE_ENV] is [production], the text with
    the stringified error otherwise), then ends the response. *)
Theorem C9_error_is_answered_once self req st err :
  errorListener st = true →
  let r := step self req st (Error err) in
  errState r.1 = true
  ∧ (∀ err', step self req r.1 (Error err') = (r.1, []))
  ∧ (proxyErrorListeners self ≠ [] →
       r.2 = EmitProxyError err req
               :: flat_map (fun l => map Consumer (l err)) (proxyErrorListeners self))
  ∧ (proxyErrorListeners self = [] →
       r.2 = [EmitProxyError err req;
              Res (writeHead 500 {[ "Content-Type" := "text/plain" ]})]
             ++ (if bool_decide (method req = "HEAD") then []
                 else [Res (write (if bool_decide (NODE_ENV self = Some "production")
                                   then "Internal Server Error"
                                   else "An error has occurred: " +:+ JSON_stringify err))])
             ++ [Res end_]).
Proof.
  intros Hl r. subst r. simpl. rewrite Hl. unfold proxyError, emit_proxyError.
  destruct (decide (proxyErrorListeners self = [])) as [Hnil|Hls].
  - rewrite (bool_decide_false (proxyErrorListeners self ≠ []))
      by (intros Hne; by apply Hne).
    simpl. repeat split; try done.
    intros _. rewrite Hnil. simpl.
    destruct (decide (method req = "HEAD")) as [Hm|Hm].
    + rewrite (bool_decide_true (method req = "HEAD")) by done.
      by rewrite (bool_decide_false (method req ≠ "HEAD"))
        by (intros Hne; by apply Hne).
    + rewrite (bool_decide_false (method req = "HEAD")) by done.
      rewrite (bool_decide_true (method req ≠ "HEAD")) by done.
      by destruct (bool_decide (NODE_ENV self = Some "production")).
  - rewrite (bool_decide_true (proxyErrorListeners self ≠ [])) by done.
    simpl. repeat split; done.
Qed.

(** C1 (as amended). In a cycle set up by [proxyRequest]: once the flag
    is set it stays set and nothing more is sent to the outbound request,
    neither a chunk nor the end; nothing more is done to the inbound
    response either as long as neither the arrival nor a ['data'] of the
    backend response follows; and when no backend response has status 304,
    a cycle in which the flag got set has had the engine end the inbound
    response exactly once if ['proxyError'] has no listener, and not at all
    if it has one, whether or not the backend response also fires ['end']. *)
Theorem C1_flag_silences_outbound_and_single_end self req port host buffer σ st evs :
  state_of (proxyRequest self req port host buffer σ) = Some st →
  (∀ pre post, evs = pre ++ post →
     errState (run self req st pre).1 = true →
     errState (run self req st evs).1 = true
     ∧ (∀ a, a ∈ (run self req (run self req st pre).1 post).2 → is_outbound a = false)
     ∧ ((∀ ev, ev ∈ post → from_backend_response ev = false) →
        ∀ a, a ∈ (run self req (run self req st pre).1 post).2 → on_response a = false))
  ∧ ((∀ hs, Response 304 hs ∉ evs) →
     errState (run self req st evs).1 = true →
     count is_engine_end (cycle self req port host buffer σ evs)
     = if bool_decide (proxyErrorListeners self = []) then 1 else 0).
Proof.
  intros Hst. destruct (proxyRequest_past_routing _ _ _ _ _ _ _ Hst) as [Hclear Hquiet].
  split.
  - intros pre post -> Hpre. rewrite run_app. simpl. split; [|split].
    + by apply run_errState.
    + intros a. by apply run_no_outbound.
    + intros Hpost a. apply run_quiet; [done| |done].
      apply run_flag_without_listener; [|done]. congruence.
  - intros H304 Hfin. unfold Proxy.cycle. rewrite Hst, count_app.
    rewrite (count_none is_engine_end (trace_of _)).
    2:{ intros a Ha. apply Hquiet in Ha. by destruct a as [[]| | | | | | | |]. }
    apply (run_ends self req evs st 0 H304); [done| |done].
    intros Htrue. congruence.
Qed.

(** The assignment [opts.headers['connection'] = 'close'] on an object of
    the store. *)
Lemma set_header_allocated l k v σ (hs : gmap string string) :
  σ !! l = Some hs → set_header l k v σ = <[l := <[k := v]> hs]> σ.
Proof.
  intros Hl. unfold set_header. apply map_eq. intros j.
  rewrite lookup_alter, lookup_insert.
  destruct (decide (l = j)) as [->|]; [by rewrite Hl|done].
Qed.


(** A 304 ends the inbound response at once and registers nothing on the
    backend response: whatever body it carries goes nowhere. *)
Lemma not_modified_forwards_no_body self req st (hs : gmap string string)
    (chunks : list string) :
  awaitingResponse st = true →
  responseListeners st = false →
  ∃ hs' : gmap string string,
    (run self req st (Response 304 hs :: map ResponseData chunks ++ [ResponseEnd])).2
    = [Res (writeHead 304 hs'); Res end_].
Proof.
  intros Hw Hl.
  assert (Hquiet : ∀ st', responseListeners st' = false →
            (run self req st' (map ResponseData chunks ++ [ResponseEnd])).2 = []).
  { induction chunks as [|c chunks IH]; intros st' Hl'.
    - simpl. by rewrite Hl'.
    - change (map ResponseData (c :: chunks) ++ [ResponseEnd])
        with (@ResponseData Err c :: (map ResponseData chunks ++ [ResponseEnd])).
      rewrite run_cons. simpl. rewrite Hl'. simpl. by apply IH. }
  rewrite run_cons. simpl. rewrite Hw. unfold onResponse. simpl.
  eexists. rewrite Hquiet; [reflexivity|done].
Qed.

(** C10 (as amended). [_forwardRequest], and every call of [proxyRequest]
    that does not end in the 404 of a route miss, assign
    [connection: close] in the header object of the inbound request
    itself: [opts.headers] is that object, the request is opened with the
    key already set, the other keys are as they were, and the object
    stays so after the call and through the cycle. *)
Theorem C10_request_headers_changed_in_place self req port host buffer σ target evs
    (hs : gmap string string) :
  σ !! headers req = Some hs →
  let closed := <["connection" := "close"]> hs in
  let c := proxyRequest self req port host buffer σ in
  (∃ o, _forwardRequest (Err := Err) self target req σ
        = Some (<[headers req := closed]> σ, [FwdHttpRequest o (Some closed)])
        ∧ opts_headers o = headers req)
  ∧ (route_miss c = false →
     store_of c = <[headers req := closed]> σ
     ∧ (∃ o, HttpRequest o (Some closed) ∈ trace_of c ∧ opts_headers o = headers req)
     ∧ ∀ st, state_of c = Some st →
             store (run self req st evs).1 = <[headers req := closed]> σ).
Proof.
  intros Hhs closed c.
  assert (Hset : set_header (headers req) "connection" "close" σ
                 = <[headers req := closed]> σ)
    by (by apply set_header_allocated).
  assert (Hset' : set_header (headers req) "connection" "close"
                    (<[headers req := closed]> σ)
                  = <[headers req := closed]> σ).
  { rewrite (set_header_allocated _ _ _ _ closed) by apply lookup_insert_eq.
    subst closed. by rewrite insert_insert_eq, insert_insert_eq. }
  split.
  - unfold _forwardRequest. destruct target as [fh fp]. simpl.
    rewrite Hhs, Hset, lookup_insert_eq. eauto.
  - intros Hmiss.
    assert (Hstore : store_of c = <[headers req := closed]> σ
                     ∧ ∃ o, HttpRequest o (Some closed) ∈ trace_of c
                            ∧ opts_headers o = headers req).
    { subst c. revert Hmiss. unfold Proxy.proxyRequest, _forwardRequest.
      repeat case_match; simplify_eq/=; intros;
        rewrite ?Hset, ?Hset', ?lookup_insert_eq in *; simplify_eq/=.
      all: try match goal with
           | H : Proxy.run _ _ _ ?s (map Inbound ?es) = _ |- _ =>
               pose proof (run_inbound self req es s) as [Hr1 _];
               rewrite H in Hr1; simpl in Hr1; subst
           end.
      all: simpl; rewrite ?Hset, ?Hset'; (split; [done|]).
      all: eexists; split;
        [rewrite ?elem_of_app, ?elem_of_cons; eauto 10|reflexivity]. }
    destruct Hstore as [Hs Ho]. split; [done|]. split; [done|].
    intros st Hst. rewrite run_store. rewrite <- Hs.
    by destruct c; simplify_eq/=.
Qed.
End proxy_facts.

(** *** The cycle on given requests *)

Lemma example_call_leaves_listening :
  Proxy.proxyRequest ProxyExample.stringify ProxyExample.plain ProxyExample.GET
    (Proxy.Num 8080) (Proxy.Str "backend") Proxy.undefined ProxyExample.store0
  = Proxy.Started ProxyExample.listening
      [Proxy.HttpRequest ProxyExample.opts
         (Some {[ "connection" := "close"; "host" := "example.com" ]})].
Proof. vm_compute. reflexivity. Qed.

(** C4, at a request that asks for [keep-alive] and a backend that
    answers with a [connection] header: the head written to the inbound
    response says [close], the value [proxyRequest] itself has put into the
    request's headers before, not the one the request came with. *)
Lemma C4_response_connection_is_close_not_the_inbound_value :
  ProxyExample.store0 !! 0 ≫= (.!! "connection") = Some "keep-alive"
  ∧ Proxy.cycle ProxyExample.stringify ProxyExample.plain ProxyExample.GET
      (Proxy.Num 8080) (Proxy.Str "backend") Proxy.undefined ProxyExample.store0
      [Proxy.Response 200 {[ "connection" := "keep-alive"; "content-type" := "text/html" ]}]
    = [Proxy.HttpRequest ProxyExample.opts
         (Some {[ "connection" := "close"; "host" := "example.com" ]});
       Proxy.Res (Proxy.writeHead 200
                    {[ "connection" := "close"; "content-type" := "text/html" ]})].
Proof. split; vm_compute; reflexivity. Qed.

(** C1 (as stated) fails: ['proxyError'] has a listener that leaves [res]
    alone, the outbound request fails; the flag is set and nobody ends the
    inbound response. *)
Lemma C1_claimed_error_leaves_response_open :
  ¬ Proxy.error_state_invariant ProxyExample.stringify ProxyExample.observed
      ProxyExample.GET (Proxy.Num 8080) (Proxy.Str "backend") Proxy.undefined
      ProxyExample.store0 [Proxy.Error "ECONNREFUSED"].
Proof.
  intros H.
  destruct (H ProxyExample.listening ltac:(vm_compute; reflexivity)
              [Proxy.Error "ECONNREFUSED"] [] eq_refl ltac:(vm_compute; reflexivity))
    as [_ Hends].
  vm_compute in Hends. discriminate.
Qed.

Lemma C1_flag_silences_outbound_and_single_end_witness :
  Proxy.count Proxy.is_engine_end
    (Proxy.cycle ProxyExample.stringify ProxyExample.plain ProxyExample.GET
       (Proxy.Num 8080) (Proxy.Str "backend") Proxy.undefined ProxyExample.store0
       [Proxy.Response 200 ∅; Proxy.Error "ECONNRESET"; Proxy.ResponseEnd])
  = 1.
Proof.
  apply (C1_flag_silences_outbound_and_single_end ProxyExample.stringify
           ProxyExample.plain ProxyExample.GET (Proxy.Num 8080) (Proxy.Str "backend")
           Proxy.undefined ProxyExample.store0 ProxyExample.listening).
  - vm_compute; reflexivity.
  - intros hs Hin. in_trace Hin; discriminate.
  - vm_compute; reflexivity.
Defined.

(** The listener of the response's ['data'] does not look at the flag: a
    chunk that arrives after the error is written after [res.end()]. *)
Remark chunk_after_error_is_written :
  Proxy.cycle ProxyExample.stringify ProxyExample.plain ProxyExample.GET
    (Proxy.Num 8080) (Proxy.Str "backend") Proxy.undefined ProxyExample.store0
    [Proxy.Response 200 ∅; Proxy.Error "ECONNRESET"; Proxy.ResponseData "late"]
  = [Proxy.HttpRequest ProxyExample.opts
       (Some {[ "connection" := "close"; "host" := "example.com" ]});
     Proxy.Res (Proxy.writeHead 200 ∅);
     Proxy.EmitProxyError "ECONNRESET" ProxyExample.GET;
     Proxy.Res (Proxy.writeHead 500 {[ "Content-Type" := "text/plain" ]});
     Proxy.Res (Proxy.write "An error has occurred: {}");
     Proxy.Res Proxy.end_;
     Proxy.Res (Proxy.write "late")].
Proof. vm_compute. reflexivity. Qed.

(** After a 304 the error listener stays: an error then ends the response
    a second time. *)
Remark error_after_304_ends_again :
  Proxy.count Proxy.is_engine_end
    (Proxy.cycle ProxyExample.stringify ProxyExample.plain ProxyExample.GET
       (Proxy.Num 8080) (Proxy.Str "backend") Proxy.undefined ProxyExample.store0
       [Proxy.Response 304 ∅; Proxy.Error "ECONNRESET"])
  = 2.
Proof. vm_compute. reflexivity. Qed.

Lemma C3_route_miss_is_404_witness :
  Proxy.cycle ProxyExample.stringify ProxyExample.routed ProxyExample.GET
    Proxy.undefined Proxy.undefined Proxy.undefined ProxyExample.store0
    [Proxy.Inbound (Proxy.Data "body"); Proxy.Inbound Proxy.End]
  = [Proxy.Res (Proxy.writeHead 404 ∅); Proxy.Res Proxy.end_].
Proof.
  apply (C3_route_miss_is_404 ProxyExample.stringify ProxyExample.routed
           ProxyExample.GET Proxy.undefined Proxy.undefined Proxy.undefined
           ProxyExample.store0 (fun _ _ => None)); reflexivity.
Defined.

Lemma C5_HEAD_gets_no_body_witness :
  Proxy.Res (Proxy.write "page")
  ∉ Proxy.cycle ProxyExample.stringify ProxyExample.plain ProxyExample.HEAD
      (Proxy.Num 8080) (Proxy.Str "backend") Proxy.undefined ProxyExample.store0
      [Proxy.Response 200 ∅; Proxy.ResponseData "page"; Proxy.ResponseEnd].
Proof.
  apply (C5_HEAD_gets_no_body ProxyExample.stringify ProxyExample.plain
           ProxyExample.HEAD). reflexivity.
Defined.

(** C9 (as stated) fails for a HEAD request: the answer to the error has
    the head and the end, and no chunk between them. *)
Lemma C9_HEAD_error_has_no_body :
  ¬ Proxy.answers_500_with_body ProxyExample.stringify ProxyExample.in_production
      ProxyExample.HEAD ProxyExample.listening "ECONNREFUSED".
Proof. unfold Proxy.answers_500_with_body. vm_compute. discriminate. Qed.

Lemma C9_error_is_answered_once_witness :
  (Proxy.step ProxyExample.stringify ProxyExample.in_production ProxyExample.GET
     ProxyExample.listening (Proxy.Error "ECONNREFUSED")).2
  = [Proxy.EmitProxyError "ECONNREFUSED" ProxyExample.GET;
     Proxy.Res (Proxy.writeHead 500 {[ "Content-Type" := "text/plain" ]});
     Proxy.Res (Proxy.write "Internal Server Error");
     Proxy.Res Proxy.end_].
Proof.
  apply (C9_error_is_answered_once ProxyExample.stringify ProxyExample.in_production
           ProxyExample.GET ProxyExample.listening "ECONNREFUSED"); reflexivity.
Defined.

(** C10 (as stated) fails: a call that ends in the 404 of a route miss
    returns before the assignment, and the request keeps its header. *)
Lemma C10_route_miss_leaves_headers :
  ¬ Proxy.forces_connection_close ProxyExample.stringify ProxyExample.routed
      ProxyExample.GET Proxy.undefined Proxy.undefined Proxy.undefined
      ProxyExample.store0.
Proof. unfold Proxy.forces_connection_close. vm_compute. discriminate. Qed.

Lemma C10_request_headers_changed_in_place_witness :
  Proxy.store_of
    (Proxy.proxyRequest ProxyExample.stringify ProxyExample.plain ProxyExample.GET
       (Proxy.Num 8080) (Proxy.Str "backend") Proxy.undefined ProxyExample.store0)
  = <[0 := <["connection" := "close"]>
             {[ "connection" := "keep-alive"; "host" := "example.com" ]}]>
      ProxyExample.store0.
Proof.
  apply (C10_request_headers_changed_in_place ProxyExample.stringify
           ProxyExample.plain ProxyExample.GET (Proxy.Num 8080) (Proxy.Str "backend")
           Proxy.undefined ProxyExample.store0 (Proxy.mkLocation "shadow" 9001) []
           {[ "connection" := "keep-alive"; "host" := "example.com" ]});
    vm_compute; reflexivity.
Defined.

(** ** The WebSocket tunnel *)

Lemma toLowerCase_equal_ignoring_case (a : string) : ∀ b : string,
  Js.toLowerCase a = Js.toLowerCase b ↔ Js.equal_ignoring_case a b.
Proof.
  induction a as [|c a IH]; intros [|d b]; simpl; try done.
  split.
  - intros Heq. injection Heq as Hc Hrest. split; [done|]. by apply IH.
  - intros [Hc Hrest]. apply IH in Hrest. by rewrite Hc, Hrest.
Qed.

(** C8. A request whose method is not GET, or whose [upgrade] header is
    not [websocket] in some mix of upper and lower case, makes
    [proxyWebSocketRequest] return at once: nothing is thrown, no pool or
    client is asked for, nothing is set on or written to the socket. *)
Theorem C8_not_a_websocket_request_is_ignored
    (req : WebSocket.Request) (port : Z) (server : string) (host : option string) :
  (WebSocket.method req ≠ "GET"
   ∨ ∃ upgrade, WebSocket.headers req !! "upgrade" = Some upgrade
                ∧ ¬ Js.equal_ignoring_case upgrade "websocket") →
  WebSocket.proxyWebSocketRequest req port server host = WebSocket.Returned [] None.
Proof.
  intros Hnot. unfold WebSocket.proxyWebSocketRequest.
  destruct (decide (WebSocket.method req = "GET")) as [Hget|Hm].
  - destruct Hnot as [Hm|(upgrade & Hup & Hcase)]; [done|].
    rewrite (bool_decide_false (WebSocket.method req ≠ "GET"))
      by (intros Hne; by apply Hne).
    rewrite Hup. rewrite bool_decide_true; [done|].
    intros Hlow. apply Hcase. by apply toLowerCase_equal_ignoring_case.
  - by rewrite bool_decide_true.
Qed.

Lemma C8_not_a_websocket_request_is_ignored_witness :
  WebSocket.proxyWebSocketRequest
    (WebSocket.mkRequest "GET" "/" {[ "upgrade" := "TLS/1.0"; "host" := "example.com" ]})
    8081 "backend" None
  = WebSocket.Returned [] None.
Proof.
  apply C8_not_a_websocket_request_is_ignored.
  right. exists "TLS/1.0". split; [vm_compute; reflexivity|]. simpl. intros [H _]. discriminate.
Defined.

(** A GET request with no [upgrade] header at all is not ignored:
    [headers.upgrade.toLowerCase()] throws. *)
Remark GET_without_upgrade_header_throws :
  WebSocket.proxyWebSocketRequest
    (WebSocket.mkRequest "GET" "/" {[ "host" := "example.com" ]}) 8081 "backend" None
  = WebSocket.Threw.
Proof. vm_compute. reflexivity. Qed.

Lemma utf8_decode_ascii_app (p q : list N) :
  Forall (fun b => (b < 128)%N) p → Js.utf8_decode (p ++ q) = p ++ Js.utf8_decode q.
Proof.
  induction 1 as [|b p Hb Hp IH]; [done|].
  simpl. apply N.ltb_lt in Hb. rewrite Hb. by rewrite IH.
Qed.

Lemma byteLength_ascii (p : list N) :
  Forall (fun b => (b < 128)%N) p → Js.byteLength p = length p.
Proof.
  induction 1 as [|b p Hb Hp IH]; [done|].
  simpl. apply N.ltb_lt in Hb. rewrite Hb. by rewrite IH.
Qed.

Lemma starts_with_app (pat : list N) : ∀ s tail : list N,
  Js.starts_with pat s = true → Js.starts_with pat (s ++ tail) = true.
Proof.
  induction pat as [|c pat IH]; intros [|d s] tail; simpl; try done.
  intros [Hc Hs]%andb_true_iff. rewrite Hc. simpl. by apply IH.
Qed.

Lemma starts_with_app_false (pat : list N) : ∀ s tail : list N,
  (length pat ≤ length s)%nat →
  Js.starts_with pat s = false → Js.starts_with pat (s ++ tail) = false.
Proof.
  induction pat as [|c pat IH]; intros [|d s] tail; simpl; try done; try lia.
  intros Hlen. destruct (c =? d)%N; simpl; [|done]. apply IH. lia.
Qed.

Lemma indexOf_cons (pat : list N) (d : N) (s : list N) :
  Js.indexOf pat (d :: s)
  = if Js.starts_with pat (d :: s) then Some 0 else S <$> Js.indexOf pat s.
Proof. reflexivity. Qed.

Lemma indexOf_bound (pat : list N) : ∀ (s : list N) (i : nat),
  Js.indexOf pat s = Some i → (i + length pat ≤ length s)%nat.
Proof.
  assert (Hsw : ∀ s : list N, Js.starts_with pat s = true → (length pat ≤ length s)%nat).
  { induction pat as [|c pat IH]; intros [|d s]; simpl; try done; try lia.
    intros [_ Hs]%andb_true_iff. apply IH in Hs. lia. }
  induction s as [|d s IH]; intros i.
  - simpl. destruct (Js.starts_with pat []) eqn:Hp; [|done].
    intros [= <-]. apply Hsw in Hp. simpl in *. lia.
  - rewrite indexOf_cons. destruct (Js.starts_with pat (d :: s)) eqn:Hp.
    + intros [= <-]. apply Hsw in Hp. simpl in *. lia.
    + destruct (Js.indexOf pat s) as [j|] eqn:Hj; [|done].
      simpl. intros [= <-]. specialize (IH j eq_refl). lia.
Qed.

Lemma indexOf_app (pat : list N) : ∀ (s tail : list N) (i : nat),
  Js.indexOf pat s = Some i → Js.indexOf pat (s ++ tail) = Some i.
Proof.
  induction s as [|d s IH]; intros tail i Hi.
  - simpl in Hi. destruct (Js.starts_with pat []) eqn:Hp; [|done].
    injection Hi as <-. destruct pat; [|done]. by destruct tail.
  - pose proof (indexOf_bound pat _ _ Hi) as Hb.
    rewrite <- app_comm_cons, indexOf_cons. rewrite indexOf_cons in Hi.
    destruct (Js.starts_with pat (d :: s)) eqn:Hp.
    + injection Hi as <-.
      by rewrite (app_comm_cons s tail d), (starts_with_app pat (d :: s) tail Hp).
    + destruct (Js.indexOf pat s) as [j|] eqn:Hj; [|done].
      injection Hi as <-.
      rewrite (app_comm_cons s tail d).
      rewrite (starts_with_app_false pat (d :: s) tail); [|simpl in *; lia|done].
      by rewrite (IH tail j eq_refl).
Qed.

(** The parts of [handshake] around the two [replace] calls: a chunk whose
    bytes up to the first empty line are ASCII is split there; the text
    before is what the replacements are applied to, the bytes from the
    empty line on are written as they came, after the text, and the
    listener is taken off. *)
Lemma handshake_splits_at_first_delimiter (cl : WebSocket.Closure) (p rest : list N)
    (t : WebSocket.Tunnel) :
  let delimiter := Js.chars (WebSocket.CRLF +:+ WebSocket.CRLF) in
  let pat := Js.chars (WebSocket.remote_host cl) in
  let rep := Js.chars (Js.to_string (WebSocket.host cl)) in
  Forall (fun b => (b < 128)%N) p →
  Js.indexOf delimiter (p ++ delimiter) = Some (length p) →
  WebSocket.socket_writable t = true →
  WebSocket.run_handshake cl (WebSocket.Bytes (p ++ delimiter ++ rest)) t
  = Some (WebSocket.removeListener WebSocket.request_socket "data" WebSocket.handshake
            (WebSocket.on WebSocket.socket "error" WebSocket.socket_error t),
          [WebSocket.Write WebSocket.socket
             (WebSocket.Text (Js.replace pat rep (Js.replace pat rep p)));
           WebSocket.Write WebSocket.socket (WebSocket.Bytes (delimiter ++ rest))]).
Proof.
  intros delimiter pat rep Hascii Hfirst Hw. unfold WebSocket.run_handshake.
  fold delimiter pat rep.
  assert (Hdec : Js.utf8_decode (p ++ delimiter ++ rest)
                 = (p ++ delimiter) ++ Js.utf8_decode rest).
  { rewrite utf8_decode_ascii_app by done.
    rewrite (utf8_decode_ascii_app delimiter)
      by (subst delimiter; repeat constructor).
    by rewrite app_assoc. }
  assert (Hsearch : Js.search delimiter (Js.utf8_decode (p ++ delimiter ++ rest))
                    = Z.of_nat (length p)).
  { unfold Js.search. rewrite Hdec. rewrite (indexOf_app _ _ _ _ Hfirst). reflexivity. }
  assert (Hsub : Js.substr (Js.utf8_decode (p ++ delimiter ++ rest)) 0
                   (Z.of_nat (length p)) = p).
  { unfold Js.substr. rewrite Hdec. simpl (0 <? 0)%Z. cbv iota.
    rewrite Z.min_l by lia. change (Z.to_nat 0) with 0. rewrite drop_0.
    destruct p as [|b p']; [done|].
    rewrite (proj2 (Z.leb_gt _ _)) by (simpl; lia).
    rewrite Nat2Z.id, <- app_assoc. by rewrite take_app_length. }
  rewrite Hsearch, Hsub, byteLength_ascii by done.
  unfold Js.slice.
  rewrite bool_decide_false by lia.
  rewrite bool_decide_false by (rewrite length_app; lia).
  rewrite drop_app_length. simpl.
  rewrite take_ge by (rewrite !length_app; lia).
  unfold WebSocket.write. simpl. rewrite Hw. simpl. by rewrite Hw.
Qed.

Lemma example_upgrade_is_tunnelled :
  WebSocket.proxyWebSocketRequest TunnelExample.upgrade_request 80 "localhost"
    (Some "localhost:8080")
  = WebSocket.Returned
      [WebSocket.SetTimeout WebSocket.socket 0; WebSocket.SetNoDelay WebSocket.socket true;
       WebSocket.SetEncoding WebSocket.socket "utf8";
       WebSocket.GetPool 80 "localhost"; WebSocket.GetClient]
      (Some TunnelExample.closure).
Proof. vm_compute. reflexivity. Qed.

(** C6, at a backend on port 80 of the host the proxy is reached at
    ([remote_host] is [localhost], [host] is [localhost:8080]): the first
    [replace] puts [localhost:8080] where the origin was, the second finds
    [localhost] inside that very text and replaces it again; the location
    keeps the backend's name.  The bytes from the empty line on are written
    as they came, and [handshake] is taken off. *)
Lemma C6_second_replace_hits_the_first_replacement :
  WebSocket.emit TunnelExample.closure WebSocket.request_socket "data"
    TunnelExample.first_chunk TunnelExample.handshaking
  = Some (WebSocket.mkTunnel true true [("error", WebSocket.socket_error)] [] [],
          [WebSocket.Write WebSocket.socket
             (WebSocket.Text (Js.chars TunnelExample.answer_relayed));
           WebSocket.Write WebSocket.socket (WebSocket.Bytes TunnelExample.checksum)])
  ∧ TunnelExample.answer_relayed ≠ TunnelExample.answer_with_both_replaced.
Proof. split; [vm_compute; reflexivity|vm_compute; discriminate]. Qed.

Lemma example_upgrade_establishes :
  (WebSocket.client_upgrade
     (WebSocket.mkTunnel true true [("error", WebSocket.socket_error)] [] [])).1
  = TunnelExample.established.
Proof. vm_compute. reflexivity. Qed.

(** C7, at a session the backend closes first and the client then: the
    first ['end'] ends the client socket and takes off the two ['data']
    listeners, but [detach] looks for the other two under ['close'] while
    they are registered under ['end'], so they stay; the second ['end']
    then runs its listener, which ends the backend socket and calls
    [detach] once more. *)
Lemma C7_end_listeners_stay_and_second_close_ends_again :
  WebSocket.relay_listeners TunnelExample.established
  = [(WebSocket.reverse_proxy, "data", WebSocket._r_data);
     (WebSocket.reverse_proxy, "end", WebSocket._r_close);
     (WebSocket.socket, "data", WebSocket._data);
     (WebSocket.socket, "end", WebSocket._close)]
  ∧ WebSocket.emit TunnelExample.closure WebSocket.reverse_proxy "end"
      (WebSocket.Bytes []) TunnelExample.established
    = Some (TunnelExample.half_closed, [WebSocket.EndOf WebSocket.socket])
  ∧ WebSocket.relay_listeners TunnelExample.half_closed
    = [(WebSocket.reverse_proxy, "end", WebSocket._r_close);
       (WebSocket.socket, "end", WebSocket._close)]
  ∧ WebSocket.emit TunnelExample.closure WebSocket.socket "end"
      (WebSocket.Text []) TunnelExample.half_closed
    = Some (WebSocket.mkTunnel false false
              [("error", WebSocket.socket_error); ("end", WebSocket._close)]
              [("end", WebSocket._r_close)] [],
            [WebSocket.EndOf WebSocket.reverse_proxy])
  ∧ WebSocket.session TunnelExample.closure
      [(WebSocket.reverse_proxy, "end", WebSocket.Bytes []);
       (WebSocket.socket, "end", WebSocket.Text [])]
      TunnelExample.established
    = Some (WebSocket.mkTunnel false false
              [("error", WebSocket.socket_error); ("end", WebSocket._close)]
              [("end", WebSocket._r_close)] [],
            [WebSocket.EndOf WebSocket.socket; WebSocket.EndOf WebSocket.reverse_proxy]).
Proof. repeat split; vm_compute; reflexivity. Qed.

(** ** More on the proxy cycle *)
Section proxy_more_facts.
Context {Err : Type} (JSON_stringify : Err → string).
Import Proxy ProxyTrace.
Implicit Types (self : @HttpProxy Err) (req : Request) (st : State)
  (ev : @Event Err) (evs : list (@Event Err)) (t : list (@Action Err))
  (σ : gmap nat (gmap string string)).

#[local] Abbreviation step := (Proxy.step JSON_stringify).
#[local] Abbreviation run := (Proxy.run JSON_stringify).
#[local] Abbreviation proxyRequest := (Proxy.proxyRequest JSON_stringify).
#[local] Abbreviation cycle := (Proxy.cycle JSON_stringify).

(** The listeners read the proxy only for its ['proxyError'] listeners and
    for [NODE_ENV]. *)
Lemma run_same_listeners self self' req evs : ∀ st,
  proxyErrorListeners self = proxyErrorListeners self' →
  NODE_ENV self = NODE_ENV self' →
  run self req st evs = run self' req st evs.
Proof.
  intros st Hl He. revert st. induction evs as [|ev evs IH]; intros st; [done|].
  rewrite !(run_cons JSON_stringify).
  assert (Hstep : step self req st ev = step self' req st ev).
  { destruct ev as [[chunk|]|status hs|chunk| |err|err]; simpl; try done.
    destruct (errorListener st); [|done].
    unfold proxyError, emit_proxyError. by rewrite Hl, He. }
  by rewrite Hstep, IH.
Qed.

(** A call past the routing, on a request that has a header object, has
    every listener of the cycle in place. *)
Lemma proxyRequest_listening self req port host buffer σ (hs : gmap string string) :
  σ !! headers req = Some hs →
  route_miss (proxyRequest self req port host buffer σ) = false →
  ∃ st, state_of (proxyRequest self req port host buffer σ) = Some st
        ∧ errState st = false ∧ errorListener st = true
        ∧ awaitingResponse st = true ∧ responseListeners st = false
        ∧ requestListeners st = true
        ∧ forwarding st = bool_decide (is_Some (forward self)).
Proof.
  intros Hhs.
  assert (Hset : set_header (headers req) "connection" "close" σ
                 = <[headers req := <["connection" := "close"]> hs]> σ)
    by (by apply set_header_allocated).
  unfold Proxy.proxyRequest, _forwardRequest.
  repeat case_match; simplify_eq/=; intros;
    rewrite ?Hset, ?lookup_insert_eq in *; simplify_eq/=.
  all: try match goal with
       | H : Proxy.run _ _ _ ?s (map Inbound ?es) = _ |- _ =>
           pose proof (run_inbound JSON_stringify self req es s) as [Hr1 _];
           rewrite H in Hr1; simpl in Hr1; subst
       end.
  all: eexists; split; [reflexivity|]; simpl; repeat split; try done.
  all: match goal with
       | H : forward _ = _ |- _ => rewrite H
       end; symmetry.
  all: first [ apply bool_decide_eq_true; eauto
             | apply bool_decide_eq_false; by intros [? ?] ].
Qed.

Lemma run_without_table self req st evs :
  run (without_table self) req st evs = run self req st evs.
Proof. by apply run_same_listeners. Qed.

(** A host argument that is not empty makes [proxyRequest] skip the
    routing table. *)
Lemma host_skips_table self req port host buffer σ evs :
  truthy host = true →
  proxyRequest self req port host buffer σ
  = proxyRequest (without_table self) req port host buffer σ
  ∧ cycle self req port host buffer σ evs
    = cycle (without_table self) req port host buffer σ evs.
Proof.
  intros Hhost.
  assert (Hcall : proxyRequest self req port host buffer σ
                  = proxyRequest (without_table self) req port host buffer σ).
  { unfold Proxy.proxyRequest, _forwardRequest, _getAgent. simpl. rewrite Hhost. simpl.
    destruct (proxyTable self); simpl; repeat case_match;
      rewrite ?run_without_table in *; simplify_eq; try done; congruence. }
  split; [done|]. unfold Proxy.cycle. rewrite <- Hcall.
  destruct (state_of _); [|done]. by rewrite run_without_table.
Qed.

(** With a table and no host argument, the location of the table takes
    the place of [port] and [host], and the third argument that of
    [buffer]. *)
Lemma routing_shifts_arguments self req port host buffer σ
    getProxyLocation location_host location_port :
  proxyTable self = Some getProxyLocation →
  truthy host = false →
  getProxyLocation req σ = Some (mkLocation location_host location_port) →
  proxyRequest self req port host buffer σ
  = proxyRequest (without_table self) req (Num location_port) (Str location_host) port σ
  ∧ ∀ evs, cycle self req port host buffer σ evs
           = cycle (without_table self) req (Num location_port) (Str location_host)
               port σ evs.
Proof.
  intros Htable Hhost Hloc.
  assert (Hcall : proxyRequest self req port host buffer σ
                  = proxyRequest (without_table self) req (Num location_port)
                      (Str location_host) port σ).
  { unfold Proxy.proxyRequest, _forwardRequest, _getAgent. simpl.
    rewrite Htable, Hhost, Hloc. simpl.
    repeat case_match; rewrite ?run_without_table in *; simplify_eq; try done; congruence. }
  split; [done|]. intros evs. unfold Proxy.cycle. rewrite <- Hcall.
  destruct (state_of _); [|done]. by rewrite run_without_table.
Qed.



(** What ['proxyError'] puts into the trace: the emission and the calls of
    the listeners. *)
Lemma notified_shape self err req (a : @Action Err) :
  a ∈ (emit_proxyError self err req).2 →
  a = EmitProxyError err req ∨ ∃ op, a = Consumer op.
Proof.
  unfold emit_proxyError. simpl. intros Ha.
  apply elem_of_cons in Ha as [->|Ha]; [by left|]. right.
  apply list_elem_of_In, in_flat_map in Ha as (l & _ & Ha).
  apply list_elem_of_In, list_elem_of_fmap in Ha as (op & -> & _). eauto.
Qed.


(** A call with no table, on a request that has a header object: the
    state it leaves and the trace it makes. *)
Lemma proxyRequest_without_table_shape self req port host buffer σ
    (hs : gmap string string) :
  proxyTable self = None →
  σ !! headers req = Some hs →
  let closed := <["connection" := "close"]> hs in
  let st0 := mkState (<[headers req := closed]> σ) false true true false true
                     (bool_decide (is_Some (forward self))) in
  state_of (proxyRequest self req port host buffer σ) = Some st0
  ∧ trace_of (proxyRequest self req port host buffer σ)
    = match forward self with
      | Some (mkLocation forward_host forward_port) =>
          [FwdHttpRequest
             (mkOptions (Str forward_host) (Num forward_port)
                        (mkAgent (Str forward_host) (Num forward_port) (maxSockets self))
                        (method req) (url req) (headers req))
             (Some closed)]
      | None => []
      end
      ++ HttpRequest
           (mkOptions host port (mkAgent host port (maxSockets self))
                      (method req) (url req) (headers req))
           (Some closed)
         :: (run self req st0 (map Inbound (replayed buffer))).2.
Proof.
  intros Htable Hhs closed st0.
  assert (Hset : set_header (headers req) "connection" "close" σ
                 = <[headers req := closed]> σ)
    by (by apply set_header_allocated).
  assert (Hset' : set_header (headers req) "connection" "close"
                    (<[headers req := closed]> σ)
                  = <[headers req := closed]> σ).
  { rewrite (set_header_allocated _ _ _ _ closed) by apply lookup_insert_eq.
    subst closed. by rewrite !insert_insert_eq. }
  unfold Proxy.proxyRequest, _forwardRequest, _getAgent. rewrite Htable. simpl.
  subst st0. destruct (forward self) as [[fh fp]|]; simpl;
    rewrite Hhs; simpl; rewrite ?Hset, ?Hset', ?lookup_insert_eq; simpl;
    rewrite ?Hset, ?Hset', ?lookup_insert_eq; simpl.
  all: destruct buffer as [|n|b|es]; simpl; try (by repeat case_match).
  all: match goal with
       | |- context [Proxy.run _ _ _ ?s (map Inbound ?es)] =>
           pose proof (run_inbound JSON_stringify self req es s) as [Hr1 _];
           destruct (Proxy.run JSON_stringify self req s (map Inbound es)) as [s' t']
       end; simpl in *; by subst.
Qed.

(** With the flag clear, an event that is no error gives the outbound
    request the inbound event it is, and nothing otherwise. *)
Lemma step_outbound self req st ev :
  requestListeners st = true → errState st = false → is_error ev = false →
  omap outbound (step self req st ev).2 = option_list (inbound ev)
  ∧ requestListeners (step self req st ev).1 = true
  ∧ errState (step self req st ev).1 = false.
Proof.
  intros Hr Hs Hev. destruct ev as [[chunk|]|status hs|chunk| |err|err]; simpl; try done.
  - rewrite Hr, Hs. by destruct (forwarding st).
  - rewrite Hr, Hs. by destruct (forwarding st).
  - destruct (awaitingResponse st); [|done]. unfold onResponse.
    by destruct (bool_decide (status = 304%Z)).
  - destruct (responseListeners st); [|done].
    by destruct (bool_decide (method req ≠ "HEAD")).
  - destruct (responseListeners st); [|done]. by rewrite Hs.
Qed.

Lemma run_outbound self req evs : ∀ st,
  requestListeners st = true → errState st = false →
  (∀ ev, ev ∈ evs → is_error ev = false) →
  omap outbound (run self req st evs).2 = omap inbound evs.
Proof.
  induction evs as [|ev evs IH]; intros st Hr Hs Hevs; [done|].
  rewrite (run_cons JSON_stringify). simpl. rewrite omap_app.
  destruct (step_outbound self req st ev Hr Hs) as (Ho & Hr' & Hs').
  { apply Hevs, list_elem_of_here. }
  rewrite Ho, IH; [by destruct (inbound ev)|done|done|].
  intros ev' Hin. by apply Hevs, list_elem_of_further.
Qed.




Lemma omap_inbound_events (es : list ReqEvent) :
  omap inbound (map (@Inbound Err) es) = es.
Proof. induction es as [|e es IH]; [done|]. simpl. f_equal. exact IH. Qed.

(** X1. A host argument that is not empty makes [proxyRequest] skip the
    routing table: the call and the whole cycle are those of the same proxy
    without a table, whatever the table would have answered. *)
Theorem explicit_host_skips_table self req port host buffer σ evs :
  truthy host = true →
  proxyRequest self req port host buffer σ
  = proxyRequest (without_table self) req port host buffer σ
  ∧ cycle self req port host buffer σ evs
    = cycle (without_table self) req port host buffer σ evs.
Proof. apply host_skips_table. Qed.

(** X2. With a table and no host argument, a request the table has a
    location for is proxied as if that location had been given as [port]
    and [host] and the third argument as [buffer]; what was passed as
    [host] and as fifth argument is not looked at. *)
Theorem routing_puts_location_and_shifts_buffer self req port host buffer σ
    getProxyLocation location_host location_port :
  proxyTable self = Some getProxyLocation →
  truthy host = false →
  getProxyLocation req σ = Some (mkLocation location_host location_port) →
  proxyRequest self req port host buffer σ
  = proxyRequest (without_table self) req (Num location_port) (Str location_host) port σ
  ∧ ∀ evs, cycle self req port host buffer σ evs
           = cycle (without_table self) req (Num location_port) (Str location_host)
               port σ evs.
Proof. apply routing_shifts_arguments. Qed.

(** A cycle that does not go through the table, on a request that has a
    header object: the requests it opens, then the listeners run on the
    replayed events followed by the events of the transport. *)
Lemma cycle_shape self req port host buffer σ evs (hs : gmap string string) :
  proxyTable self = None ∨ truthy host = true →
  σ !! headers req = Some hs →
  let closed := <["connection" := "close"]> hs in
  let st0 := mkState (<[headers req := closed]> σ) false true true false true
                     (bool_decide (is_Some (forward self))) in
  cycle self req port host buffer σ evs
  = match forward self with
    | Some (mkLocation forward_host forward_port) =>
        [FwdHttpRequest
           (mkOptions (Str forward_host) (Num forward_port)
                      (mkAgent (Str forward_host) (Num forward_port) (maxSockets self))
                      (method req) (url req) (headers req))
           (Some closed)]
    | None => []
    end
    ++ HttpRequest
         (mkOptions host port (mkAgent host port (maxSockets self))
                    (method req) (url req) (headers req))
         (Some closed)
       :: (run self req st0 (map Inbound (replayed buffer) ++ evs)).2.
Proof.
  intros Hroute Hhs closed st0.
  match goal with |- _ = ?r => set (rhs := r) end.
  assert (Hnone : ∀ self', proxyTable self' = None →
            forward self' = forward self → maxSockets self' = maxSockets self →
            (∀ st evs', run self' req st evs' = run self req st evs') →
            cycle self' req port host buffer σ evs = rhs).
  { intros self' Htable Hf Hm Hrun. subst rhs. unfold Proxy.cycle.
    destruct (proxyRequest_without_table_shape self' req port host buffer σ hs Htable Hhs)
      as [Hst Ht].
    rewrite Hst, Ht, Hf, Hm, !Hrun. fold closed. fold st0.
    rewrite (run_app JSON_stringify). simpl.
    destruct (run_inbound JSON_stringify self req (replayed buffer) st0) as [-> _].
    rewrite <- app_assoc. simpl. reflexivity. }
  destruct Hroute as [Htable|Hhost].
  - by apply Hnone.
  - destruct (host_skips_table self req port host buffer σ evs Hhost) as [_ ->].
    apply Hnone; try done. intros. apply run_without_table.
Qed.

(** X3. Inbound chunks reach the backend in order: as long as no error of
    the outbound request has fired, what is written to it (and its end) is
    exactly the events a [buffer] handle replays, followed by the ['data']
    and ['end'] events of the inbound request, each once and in their
    order. *)
Theorem request_body_is_relayed_in_order self req port host buffer σ evs
    (hs : gmap string string) :
  proxyTable self = None ∨ truthy host = true →
  σ !! headers req = Some hs →
  (∀ ev, ev ∈ evs → is_error ev = false) →
  omap outbound (cycle self req port host buffer σ evs)
  = replayed buffer ++ omap inbound evs.
Proof.
  intros Hroute Hhs Hevs. rewrite (cycle_shape _ _ _ _ _ _ _ hs) by done.
  rewrite omap_app. simpl.
  rewrite run_outbound, omap_app, omap_inbound_events;
    [by destruct (forward self) as [[]|]|done|done|].
  intros ev [Hin|Hin]%elem_of_app; [|by apply Hevs].
  apply list_elem_of_fmap in Hin as (e & -> & _). done.
Qed.







Lemma primary_app t1 t2 : primary (t1 ++ t2) = primary t1 ++ primary t2.
Proof. apply filter_app. Qed.

Lemma primary_all t : (∀ a, a ∈ t → is_shadow a = false) → primary t = t.
Proof.
  induction t as [|a t IH]; intros Hall; [done|].
  unfold primary. rewrite filter_cons_True by apply Hall, list_elem_of_here.
  f_equal. apply IH. intros b Hb. by apply Hall, list_elem_of_further.
Qed.

Lemma primary_notified self err req :
  primary (emit_proxyError self err req).2 = (emit_proxyError self err req).2.
Proof.
  apply primary_all. intros a Ha. by apply notified_shape in Ha as [->|[op ->]].
Qed.

(** A listener does to the primary path what it does without the shadow
    path. *)
Lemma step_primary self req st ev :
  is_forward_error ev = false →
  step (without_forward self) req (unforwarded st) ev
  = (unforwarded (step self req st ev).1, primary (step self req st ev).2).
Proof.
  intros Hev. destruct ev as [[chunk|]|status hs|chunk| |err|err]; simpl; try done.
  - by destruct (forwarding st), (requestListeners st), (errState st).
  - by destruct (forwarding st), (requestListeners st), (errState st).
  - destruct (awaitingResponse st); [|done]. unfold onResponse. simpl.
    by destruct (bool_decide (status = 304%Z)).
  - destruct (responseListeners st); [|done].
    by destruct (bool_decide (method req ≠ "HEAD")).
  - by destruct (responseListeners st), (errState st).
  - destruct (errorListener st); [|done]. unfold proxyError.
    change (emit_proxyError (without_forward self) err req)
      with (emit_proxyError self err req).
    pose proof (primary_notified self err req) as Hn.
    destruct (emit_proxyError self err req) as [[|] n]; simpl in Hn |- *.
    + by rewrite Hn.
    + rewrite primary_app, Hn.
      destruct (bool_decide (method req ≠ "HEAD"));
        [destruct (bool_decide (NODE_ENV self = Some "production"))|]; done.
Qed.

Lemma run_primary self req evs : ∀ st,
  run (without_forward self) req (unforwarded st) (without_forward_errors evs)
  = (unforwarded (run self req st evs).1, primary (run self req st evs).2).
Proof.
  induction evs as [|ev evs IH]; intros st; [done|].
  rewrite (run_cons JSON_stringify). cbn [fst snd]. unfold without_forward_errors.
  destruct (is_forward_error ev) eqn:Hev.
  - rewrite filter_cons_False by (by rewrite Hev).
    by destruct ev.
  - rewrite filter_cons_True by done.
    rewrite (run_cons JSON_stringify), step_primary by done. cbn [fst snd].
    fold (without_forward_errors evs). by rewrite IH, primary_app.
Qed.

(** X7. The shadow path never shows on the primary path: on a request that
    has a header object, what a cycle does to the inbound response and to
    the outbound request is what the same cycle does with no forward
    address set and the errors of the shadow request left out. *)
Theorem shadow_leaves_primary_alone self req port host buffer σ evs
    (hs : gmap string string) :
  σ !! headers req = Some hs →
  primary (cycle self req port host buffer σ evs)
  = cycle (without_forward self) req port host buffer σ (without_forward_errors evs).
Proof.
  intros Hhs.
  assert (Hdirect : ∀ self' port' host' buffer',
            proxyTable self' = None ∨ truthy host' = true →
            primary (cycle self' req port' host' buffer' σ evs)
            = cycle (without_forward self') req port' host' buffer' σ
                (without_forward_errors evs)).
  { intros self' port' host' buffer' Hroute.
    rewrite !(cycle_shape _ _ _ _ _ _ _ hs) by done. simpl.
    rewrite primary_app.
    set (st0 := mkState _ false true true false true (bool_decide _)).
    assert (Hreplay : map (@Inbound Err) (replayed buffer') ++ without_forward_errors evs
                      = without_forward_errors (map Inbound (replayed buffer') ++ evs)).
    { unfold without_forward_errors. rewrite filter_app. f_equal.
      symmetry. induction (replayed buffer') as [|e es IH]; [done|].
      simpl. rewrite filter_cons_True by done. by rewrite IH. }
    rewrite Hreplay.
    pose proof (run_primary self' req (map Inbound (replayed buffer') ++ evs) st0) as Hrun.
    unfold unforwarded in Hrun. simpl in Hrun. rewrite Hrun. simpl.
    unfold primary at 2. rewrite filter_cons_True by done.
    by destruct (forward self') as [[]|]. }
  destruct (proxyTable self) as [getProxyLocation|] eqn:Htable; [|by apply Hdirect; left].
  destruct (truthy host) eqn:Hhost; [by apply Hdirect; right|].
  destruct (getProxyLocation req σ) as [[lh lp]|] eqn:Hloc.
  - destruct (routing_shifts_arguments self req port host buffer σ
                _ _ _ Htable Hhost Hloc) as [_ ->].
    destruct (routing_shifts_arguments (without_forward self) req port host
                buffer σ _ _ _ Htable Hhost Hloc) as [_ ->].
    apply (Hdirect (without_table self)). by left.
  - unfold Proxy.cycle, Proxy.proxyRequest. simpl. by rewrite Htable, Hhost, Hloc.
Qed.
End proxy_more_facts.

(** ** More on the event buffer *)
Section buffer_more_facts.
Context {V : Type}.
Import Buffer.
Implicit Types (st : State V) (ds : list (string * nat)).

Lemma emit_all_detached ds (evs : list (Captured V)) : ∀ st,
  obj st = downstream ds →
  emit_all evs st = mkState (obj st) (events st) (seen st ++ deliver ds evs).
Proof.
  induction evs as [|ev evs IH]; intros st Hobj.
  - unfold emit_all, deliver. simpl. rewrite app_nil_r. by destruct st.
  - unfold emit_all in *. simpl. rewrite (emit_detached ds) by done.
    rewrite IH by done. unfold deliver. simpl.
    by rewrite app_nil_r, <- !app_assoc.
Qed.

Lemma end_attached ds1 ds2 st :
  obj st = downstream ds1 ++ [("data", onData); ("end", onEnd)] ++ downstream ds2 →
  end_ st = mkState (downstream (ds1 ++ ds2)) (events st) (seen st).
Proof.
  intros Hobj. unfold end_. rewrite Hobj. f_equal.
  rewrite removeListener_app_absent by (apply capture_not_downstream; auto).
  change ([("data", onData); ("end", onEnd)] ++ downstream ds2)
    with (("data", onData) :: ("end", onEnd) :: downstream ds2).
  rewrite removeListener_head.
  rewrite removeListener_app_absent by (apply capture_not_downstream; auto).
  rewrite removeListener_head.
  by rewrite downstream_app.
Qed.

Lemma buffer_attached ds (log : list (Captured V)) (sn : list (nat * Captured V)) :
  obj (buffer (mkState (downstream ds) log sn))
  = downstream ds ++ [("data", onData); ("end", onEnd)] ++ downstream [].
Proof. simpl. unfold Events.on. by rewrite <- app_assoc. Qed.

(** X8. [end()] stops the capture for good: the listeners of the source
    are those it had before [buffer], events emitted afterwards reach
    them and are not logged, and a later [resume()] replays what was
    captured before [end()], nothing of what came after. *)
Theorem end_stops_capture (ds0 : list (string * nat)) (before after : list (Kind * V * V))
    (log0 : list (Captured V)) (seen0 : list (nat * Captured V)) :
  let st1 := buffer (mkState (downstream ds0) log0 seen0) in
  let st2 := emit_all (map captured before) st1 in
  let st3 := end_ st2 in
  let st4 := emit_all (map captured after) st3 in
  let st5 := resume st4 in
  obj st3 = downstream ds0
  ∧ events st4 = map captured before
  ∧ seen st4 = seen st3 ++ deliver ds0 (map captured after)
  ∧ seen st5 = seen st4 ++ deliver ds0 (map captured before).
Proof.
  intros st1 st2 st3 st4 st5.
  pose proof (buffer_attached ds0 log0 seen0) as H1. fold st1 in H1.
  assert (H2 : st2 = mkState (obj st1) (map captured before)
                       (seen0 ++ deliver (ds0 ++ []) (map captured before))).
  { subst st2. by rewrite (emit_all_capturing ds0 []). }
  assert (H3 : st3 = mkState (downstream ds0) (map captured before) (seen st2)).
  { subst st3. rewrite (end_attached ds0 []) by (by rewrite H2).
    by rewrite app_nil_r, H2. }
  assert (H4 : st4 = mkState (downstream ds0) (map captured before)
                       (seen st3 ++ deliver ds0 (map captured after))).
  { subst st4. rewrite (emit_all_detached ds0) by (by rewrite H3). by rewrite H3. }
  split; [by rewrite H3|]. split; [by rewrite H4|]. split; [by rewrite H4|].
  subst st5. rewrite (resume_detached ds0) by (by rewrite H4). by rewrite H4.
Qed.

(** X9. [buffer] does not hold events back: while it captures, the
    listeners the source already has are called as ever, so such a
    listener gets every captured event a second time on [resume()]. *)
Theorem capture_does_not_hold_events_back (ds0 more : list (string * nat))
    (evs : list (Kind * V * V))
    (log0 : list (Captured V)) (seen0 : list (nat * Captured V)) :
  let st2 := emit_all (map captured evs) (buffer (mkState (downstream ds0) log0 seen0)) in
  let st4 := resume (on_all more st2) in
  seen st2 = seen0 ++ deliver ds0 (map captured evs)
  ∧ seen st4 = seen0 ++ deliver ds0 (map captured evs)
               ++ deliver (ds0 ++ more) (map captured evs).
Proof.
  intros st2 st4.
  pose proof (buffer_attached ds0 log0 seen0) as H1.
  assert (H2 : st2 = mkState (obj (buffer (mkState (downstream ds0) log0 seen0)))
                       (map captured evs)
                       (seen0 ++ deliver ds0 (map captured evs))).
  { subst st2. rewrite (emit_all_capturing ds0 []) by done. by rewrite app_nil_r. }
  split; [by rewrite H2|].
  subst st4. rewrite (resume_attached ds0 more).
  - cbn [seen]. rewrite events_on_all, seen_on_all, H2. cbn [seen events].
    by rewrite <- app_assoc.
  - rewrite obj_on_all, H2. cbn [obj]. rewrite H1.
    cbn [downstream map]. by rewrite app_nil_r, <- !app_assoc.
Qed.
End buffer_more_facts.

(** ** More on the WebSocket tunnel *)


Lemma emit_data_from_client (cl : WebSocket.Closure) (d : WebSocket.Payload)
    (t : WebSocket.Tunnel) :
  Events.listeners "data" (WebSocket.on_socket t) = [WebSocket._data] →
  WebSocket.reverse_proxy_writable t = true →
  WebSocket.emit cl WebSocket.socket "data" d t
  = Some (t, [WebSocket.Write WebSocket.reverse_proxy d]).
Proof.
  intros Hl Hw. unfold WebSocket.emit. simpl. rewrite Hl. simpl.
  unfold WebSocket.write. simpl. by rewrite Hw.
Qed.

Lemma emit_data_from_backend (cl : WebSocket.Closure) (d : WebSocket.Payload)
    (t : WebSocket.Tunnel) :
  Events.listeners "data" (WebSocket.on_reverse_proxy t) = [WebSocket._r_data] →
  WebSocket.socket_writable t = true →
  WebSocket.emit cl WebSocket.reverse_proxy "data" d t
  = Some (t, [WebSocket.Write WebSocket.socket d]).
Proof.
  intros Hl Hw. unfold WebSocket.emit. simpl. rewrite Hl. simpl.
  unfold WebSocket.write. simpl. by rewrite !Hw.
Qed.

(** X11. The relay is verbatim and in order: in a tunnel where [_data]
    and [_r_data] are the listeners of ['data'] and both sockets can be
    written, every chunk that arrives on one socket is written unchanged
    to the other, one write per event in the order of arrival, and
    nothing is ended or taken off. *)
Theorem relay_is_verbatim_and_in_order (cl : WebSocket.Closure) (t : WebSocket.Tunnel)
    (evs : list (WebSocket.Conn * WebSocket.Payload)) :
  WebSocket.socket_writable t = true →
  WebSocket.reverse_proxy_writable t = true →
  Events.listeners "data" (WebSocket.on_socket t) = [WebSocket._data] →
  Events.listeners "data" (WebSocket.on_reverse_proxy t) = [WebSocket._r_data] →
  Forall (fun ev => ev.1 = WebSocket.socket ∨ ev.1 = WebSocket.reverse_proxy) evs →
  WebSocket.session cl (map TunnelTrace.data_event evs) t
  = Some (t, map TunnelTrace.relayed evs).
Proof.
  intros Hws Hwr Hls Hlr Hevs. induction Hevs as [|[c d] evs Hc _ IH]; [done|].
  simpl. unfold TunnelTrace.relayed at 1. simpl in Hc |- *.
  destruct Hc as [->| ->]; simpl.
  - rewrite emit_data_from_client by done. by rewrite IH.
  - rewrite emit_data_from_backend by done. by rewrite IH.
Qed.

Lemma relay_is_verbatim_and_in_order_witness :
  WebSocket.session TunnelExample.closure
    (map TunnelTrace.data_event
       [(WebSocket.socket, WebSocket.Text (Js.chars "ping"));
        (WebSocket.reverse_proxy, WebSocket.Bytes [0; 112; 111; 110; 103; 255]%N)])
    TunnelExample.established
  = Some (TunnelExample.established,
          [WebSocket.Write WebSocket.reverse_proxy (WebSocket.Text (Js.chars "ping"));
           WebSocket.Write WebSocket.socket (WebSocket.Bytes [0; 112; 111; 110; 103; 255]%N)]).
Proof.
  apply (relay_is_verbatim_and_in_order TunnelExample.closure TunnelExample.established
           [(WebSocket.socket, WebSocket.Text (Js.chars "ping"));
            (WebSocket.reverse_proxy, WebSocket.Bytes [0; 112; 111; 110; 103; 255]%N)]);
    try reflexivity.
  apply Forall_cons; split; [by left|].
  apply Forall_cons; split; [by right|]. apply Forall_nil_2.
Defined.





Lemma indexOf_absent (x : nat) (l : list nat) :
  x ∉ l → TunnelTrace.indexOf x l = (-1)%Z.
Proof.
  induction l as [|y l IH]; [done|]. rewrite not_elem_of_cons. intros [Hne Hl].
  simpl. destruct (decide (y = x)) as [->|_]; [done|]. by rewrite (IH Hl).
Qed.

Lemma indexOf_present (x : nat) (l : list nat) :
  x ∈ l →
  ∃ l1 l2, l = l1 ++ x :: l2 ∧ (x ∉ l1)
           ∧ TunnelTrace.indexOf x l = Z.of_nat (length l1).
Proof.
  induction l as [|y l IH]; [by rewrite elem_of_nil|].
  intros Hin. simpl. destruct (decide (y = x)) as [->|Hne].
  - exists [], l. repeat split; [apply not_elem_of_nil].
  - apply elem_of_cons in Hin as [Heq|Hin]; [congruence|].
    destruct (IH Hin) as (l1 & l2 & -> & Hl1 & ->).
    exists (y :: l1), l2. repeat split.
    + rewrite not_elem_of_cons. split; [congruence|done].
    + destruct (Z.ltb_spec (Z.of_nat (length l1)) 0); simpl length; lia.
Qed.

Lemma splice_one_at (l1 l2 : list nat) (x : nat) :
  TunnelTrace.splice_one (Z.of_nat (length l1)) (l1 ++ x :: l2) = l1 ++ l2.
Proof.
  unfold TunnelTrace.splice_one. rewrite length_app. simpl length.
  destruct (Z.ltb_spec (Z.of_nat (length l1)) 0); [lia|].
  rewrite Z.min_l by lia. rewrite Nat2Z.id.
  rewrite take_app_length. f_equal.
  rewrite drop_app_ge by lia.
  replace (length l1 + 1 - length l1)%nat with 1%nat by lia. done.
Qed.

Lemma splice_one_last (l : list nat) :
  TunnelTrace.splice_one (-1) l = take (length l - 1) l.
Proof.
  unfold TunnelTrace.splice_one. change (-1 <? 0)%Z with true. cbv iota.
  destruct l as [|y l]; [done|].
  rewrite Z.max_l by (simpl length; lia).
  replace (Z.to_nat (Z.of_nat (length (y :: l)) + -1)) with (length (y :: l) - 1)%nat by lia.
  rewrite (drop_ge (y :: l)) by (simpl length; lia). by rewrite app_nil_r.
Qed.

(** X14. What [errorListener] takes out of the pool.  When the client
    that failed is among [p.clients], its first occurrence is taken out
    and the others stay in order.  When it is not there, [indexOf] gives
    -1 and [splice (-1, 1)] takes out the last client of the pool, which
    is another client (or nothing, when the pool is empty).  The inbound
    socket is ended in both cases. *)
Theorem errorListener_evicts_from_pool (client : nat) (clients : list nat)
    (t : WebSocket.Tunnel) :
  (client ∈ clients →
   ∃ before after, clients = before ++ client :: after ∧ (client ∉ before)
     ∧ (TunnelTrace.errorListener client clients t).1 = before ++ after)
  ∧ (client ∉ clients →
     (TunnelTrace.errorListener client clients t).1
     = take (length clients - 1) clients)
  ∧ (TunnelTrace.errorListener client clients t).2.2
    = [WebSocket.EndOf WebSocket.socket].
Proof.
  split; [|split]; [| |done].
  - intros Hin. destruct (indexOf_present _ _ Hin) as (l1 & l2 & -> & Hl1 & Hi).
    exists l1, l2. repeat split; [done|].
    unfold TunnelTrace.errorListener. cbn [fst]. rewrite Hi. apply splice_one_at.
  - intros Hout. unfold TunnelTrace.errorListener. cbn [fst].
    rewrite indexOf_absent by done. apply splice_one_last.
Qed.

(** ** The server made by [createServer] *)
Section server_facts.
Context {Err : Type} (JSON_stringify : Err → string).
Import Proxy ProxyTrace Server.
#[local] Abbreviation cycle := (Proxy.cycle JSON_stringify).
#[local] Abbreviation createServer := (Server.createServer (Err := Err)).

Lemma router_of_or_empty (a : Arg) : router_of (or_empty (Some a)) = router_of a.
Proof. by destruct a as [[]| |]; simpl; repeat case_match. Qed.

(** X15. A function given as last argument takes every request: whatever
    comes before it (a port and a host, options with a router, nothing),
    the server is made and its listener calls the function and never
    proxies by itself. *)
Theorem handler_given_last_takes_every_request NODE_ENV maxSockets
    (args : list Arg) (f : nat) :
  ∃ s, createServer NODE_ENV maxSockets (args ++ [Function f]) = Some s
       ∧ callback s = Some f
       ∧ request_listener s = callback_ f.
Proof.
  unfold Server.createServer. rewrite last_snoc, removelast_last.
  destruct (bool_decide (2 ≤ length args)%nat); [by eexists|].
  destruct (bool_decide (length args = 1%nat)); [|by eexists].
  rewrite (bool_decide_true (is_Some (Some f))) by eauto.
  rewrite andb_false_r. by eexists.
Qed.

(** [createServer] on one argument. *)
Lemma createServer_one NODE_ENV maxSockets (a : Arg) :
  createServer NODE_ENV maxSockets [a]
  = match a with
    | Function f =>
        Some (mkServer (Some f) (Plain undefined) (Plain undefined)
                (new_HttpProxy NODE_ENV maxSockets None))
    | _ =>
        if bool_decide (is_Some (router_of a)) then
          Some (mkServer None (Plain undefined) (Plain undefined)
                  (new_HttpProxy NODE_ENV maxSockets (Some a)))
        else None
    end.
Proof.
  unfold Server.createServer. destruct a as [v|o|f]; [| |done].
  - unfold new_HttpProxy, or_empty, arg_truthy. simpl.
    by destruct (truthy v).
  - unfold new_HttpProxy. simpl. by destruct (router o).
Qed.

(** [createServer] on no argument, or on two and more. *)
Lemma createServer_unchecked NODE_ENV maxSockets (arguments : list Arg) :
  length arguments ≠ 1%nat →
  is_Some (createServer NODE_ENV maxSockets arguments).
Proof.
  intros Hlen. unfold Server.createServer.
  destruct (last arguments) as [[v|o|f]|] eqn:Hlast.
  1,2,4: destruct (bool_decide (2 ≤ length arguments)%nat); [by eexists|];
         rewrite bool_decide_false by done; by eexists.
  destruct (bool_decide (2 ≤ length (removelast arguments))%nat); [by eexists|].
  destruct (bool_decide (length (removelast arguments) = 1%nat)); [|by eexists].
  rewrite (bool_decide_true (is_Some (Some f))) by eauto.
  rewrite andb_false_r. by eexists.
Qed.

(** X16. What the check at set-up covers.  [createServer] throws exactly
    when it is given one argument that is no function and has no router.
    A server made from one argument never refuses a request; with no
    argument, or two and more, nothing is checked at set-up. *)
Theorem setup_check_covers_the_single_argument NODE_ENV maxSockets
    (arguments : list Arg) :
  (createServer NODE_ENV maxSockets arguments = None
   ↔ ∃ a, arguments = [a] ∧ is_function a = false ∧ router_of a = None)
  ∧ (∀ s, length arguments = 1%nat →
          createServer NODE_ENV maxSockets arguments = Some s →
          request_listener s ≠ throw_)
  ∧ (length arguments ≠ 1%nat →
     is_Some (createServer NODE_ENV maxSockets arguments)).
Proof.
  split; [|split]; [| |apply createServer_unchecked].
  - split.
    + intros Hnone. destruct arguments as [|a [|b rest]].
      * by destruct (createServer_unchecked NODE_ENV maxSockets [] ltac:(done)) as [? ?].
      * exists a. rewrite createServer_one in Hnone.
        destruct a as [v|o|f]; [| |done]; (split; [done|]); (split; [done|]).
        -- done.
        -- simpl in *. destruct (router o); [|done].
           by rewrite bool_decide_true in Hnone by eauto.
      * destruct (createServer_unchecked NODE_ENV maxSockets (a :: b :: rest)) as [? Hs];
          [done|congruence].
    + intros (a & -> & Hf & Hr). rewrite createServer_one.
      destruct a as [v|o|f]; [| |done]; rewrite Hr;
        by rewrite bool_decide_false by (by intros [? ?]).
  - intros s Hlen. destruct arguments as [|a [|b rest]]; [done| |done].
    rewrite createServer_one. destruct a as [v|o|f].
    + by simpl.
    + destruct (bool_decide (is_Some (router_of (Object o)))) eqn:Hr; [|done].
      intros [= <-]. unfold request_listener. simpl.
      apply bool_decide_eq_true in Hr. simpl in Hr.
      rewrite (bool_decide_true (is_Some (router o))) by done. done.
    + by intros [= <-].
Qed.

(** X17. A target given to [createServer] wins over a router given with
    it: with a port and a host that are set and no handler, every request
    is proxied to that port and host, and the cycle is the one of a proxy
    that has no table at all. *)
Theorem server_target_wins_over_router NODE_ENV maxSockets (p h : Value)
    (rest : list Arg) (s : Server) req σ evs :
  truthy p = true → truthy h = true →
  createServer NODE_ENV maxSockets (Plain p :: Plain h :: rest) = Some s →
  callback s = None →
  request_listener s = proxyRequest_ (Plain p) (Plain h)
  ∧ cycle (proxy s) req p h undefined σ evs
    = cycle (without_table (proxy s)) req p h undefined σ evs.
Proof.
  intros Hp Hh Hs Hcb. split.
  - revert Hs. unfold Server.createServer.
    destruct (last (Plain p :: Plain h :: rest)) as [[v|o|f]|] eqn:Hlast.
    all: try (rewrite bool_decide_true by (simpl; lia); intros [= <-];
              unfold request_listener; simpl; by rewrite Hp, Hh).
    intros Hs.
    assert (callback s = Some f); [|congruence].
    repeat case_match; by simplify_eq.
  - by apply host_skips_table.
Qed.

(** X18. A server made from a router alone looks every request up in the
    table: a request the table has no location for is answered by 404
    and an end and nothing more happens on it, whatever arrives later;
    another request is proxied to the location the table gives, with no
    buffer. *)
Theorem router_only_server_routes_or_answers_404 NODE_ENV maxSockets
    (o : ProxyOptions) table req σ evs :
  router o = Some table →
  ∃ s, createServer NODE_ENV maxSockets [Object o] = Some s
       ∧ request_listener s = proxyRequest_routed
       ∧ cycle (proxy s) req undefined undefined undefined σ evs
         = match table req σ with
           | None => [Res (writeHead 404 ∅); Res Proxy.end_]
           | Some (mkLocation location_host location_port) =>
               cycle (without_table (proxy s)) req
                 (Num location_port) (Str location_host) undefined σ evs
           end.
Proof.
  intros Hr. rewrite createServer_one. simpl. rewrite Hr.
  rewrite bool_decide_true by eauto.
  eexists. split; [reflexivity|]. split.
  - unfold request_listener. simpl. rewrite Hr. by rewrite bool_decide_true by eauto.
  - unfold new_HttpProxy. simpl. rewrite Hr.
    destruct (table req σ) as [[lh lp]|] eqn:Hloc.
    + by destruct (routing_shifts_arguments JSON_stringify
                     (mkHttpProxy (Some table) (options_forward o) [] NODE_ENV maxSockets)
                     req undefined undefined undefined σ table lh lp
                     eq_refl eq_refl Hloc) as [_ ->].
    + unfold Proxy.cycle, Proxy.proxyRequest. simpl. by rewrite Hloc.
Qed.
End server_facts.

(** ** The properties above, on the examples *)

Lemma explicit_host_skips_table_witness :
  Proxy.cycle ProxyExample.stringify CycleExample.to_backend ProxyExample.GET
    (Proxy.Num 9000) (Proxy.Str "other") Proxy.undefined ProxyExample.store0
    CycleExample.upload
  = Proxy.cycle ProxyExample.stringify (ProxyTrace.without_table CycleExample.to_backend)
      ProxyExample.GET (Proxy.Num 9000) (Proxy.Str "other") Proxy.undefined
      ProxyExample.store0 CycleExample.upload.
Proof.
  apply (explicit_host_skips_table ProxyExample.stringify CycleExample.to_backend
           ProxyExample.GET (Proxy.Num 9000) (Proxy.Str "other") Proxy.undefined
           ProxyExample.store0 CycleExample.upload).
  reflexivity.
Defined.

Lemma routing_puts_location_and_shifts_buffer_witness :
  Proxy.proxyRequest ProxyExample.stringify CycleExample.to_backend ProxyExample.GET
    CycleExample.held Proxy.undefined Proxy.undefined ProxyExample.store0
  = Proxy.proxyRequest ProxyExample.stringify
      (ProxyTrace.without_table CycleExample.to_backend) ProxyExample.GET
      (Proxy.Num 8080) (Proxy.Str "backend") CycleExample.held ProxyExample.store0.
Proof.
  apply (routing_puts_location_and_shifts_buffer ProxyExample.stringify
           CycleExample.to_backend ProxyExample.GET CycleExample.held Proxy.undefined
           Proxy.undefined ProxyExample.store0 CycleExample.table "backend" 8080%Z);
    reflexivity.
Defined.

Lemma request_body_is_relayed_in_order_witness :
  omap ProxyTrace.outbound
    (Proxy.cycle ProxyExample.stringify ProxyExample.plain ProxyExample.GET
       (Proxy.Num 8080) (Proxy.Str "backend") CycleExample.held ProxyExample.store0
       CycleExample.upload)
  = [Proxy.Data "a"; Proxy.Data "b"; Proxy.End].
Proof.
  apply (request_body_is_relayed_in_order ProxyExample.stringify ProxyExample.plain
           ProxyExample.GET (Proxy.Num 8080) (Proxy.Str "backend") CycleExample.held
           ProxyExample.store0 CycleExample.upload CycleExample.headers0).
  - left. reflexivity.
  - vm_compute. reflexivity.
  - intros ev Hin. unfold CycleExample.upload in Hin.
    repeat (apply elem_of_cons in Hin as [->|Hin]; [reflexivity|]).
    by apply elem_of_nil in Hin.
Defined.




Lemma shadow_leaves_primary_alone_witness :
  ProxyTrace.primary
    (Proxy.cycle ProxyExample.stringify CycleExample.shadowing ProxyExample.GET
       (Proxy.Num 8080) (Proxy.Str "backend") CycleExample.held ProxyExample.store0
       (Proxy.ForwardError "EPIPE" :: CycleExample.failing_upload))
  = Proxy.cycle ProxyExample.stringify (ProxyTrace.without_forward CycleExample.shadowing)
      ProxyExample.GET (Proxy.Num 8080) (Proxy.Str "backend") CycleExample.held
      ProxyExample.store0
      (ProxyTrace.without_forward_errors
         (Proxy.ForwardError "EPIPE" :: CycleExample.failing_upload)).
Proof.
  apply (shadow_leaves_primary_alone ProxyExample.stringify CycleExample.shadowing
           ProxyExample.GET (Proxy.Num 8080) (Proxy.Str "backend") CycleExample.held
           ProxyExample.store0
           (Proxy.ForwardError "EPIPE" :: CycleExample.failing_upload)
           CycleExample.headers0).
  vm_compute. reflexivity.
Defined.

Lemma errorListener_evicts_from_pool_witness :
  (TunnelTrace.errorListener 9 [3; 7; 5]%nat TunnelExample.established).1 = [3; 7]%nat.
Proof.
  apply (proj1 (proj2 (errorListener_evicts_from_pool 9 [3; 7; 5]%nat
                         TunnelExample.established))).
  intros Hin. repeat (apply elem_of_cons in Hin as [?|Hin]; [discriminate|]).
  by apply elem_of_nil in Hin.
Defined.

Lemma setup_check_covers_the_single_argument_witness :
  Server.createServer (Err := string) None 100 [Server.Plain (Proxy.Num 8080)] = None.
Proof.
  apply (proj1 (setup_check_covers_the_single_argument (Err := string) None 100
                  [Server.Plain (Proxy.Num 8080)])).
  exists (Server.Plain (Proxy.Num 8080)). repeat split.
Defined.

Lemma server_target_wins_over_router_witness :
  Server.request_listener CycleExample.to_target
  = Server.proxyRequest_ (Server.Plain (Proxy.Num 8080)) (Server.Plain (Proxy.Str "backend"))
  ∧ Proxy.cycle ProxyExample.stringify (Server.proxy CycleExample.to_target)
      ProxyExample.GET (Proxy.Num 8080) (Proxy.Str "backend") Proxy.undefined
      ProxyExample.store0 CycleExample.upload
    = Proxy.cycle ProxyExample.stringify
        (ProxyTrace.without_table (Server.proxy CycleExample.to_target))
        ProxyExample.GET (Proxy.Num 8080) (Proxy.Str "backend") Proxy.undefined
        ProxyExample.store0 CycleExample.upload.
Proof.
  apply (server_target_wins_over_router ProxyExample.stringify None 100
           (Proxy.Num 8080) (Proxy.Str "backend")
           [Server.Object (Server.mkProxyOptions (Some CycleExample.table) None)]
           CycleExample.to_target ProxyExample.GET ProxyExample.store0
           CycleExample.upload); reflexivity.
Defined.

Lemma router_only_server_routes_or_answers_404_witness :
  ∃ s, Server.createServer None 100
         [Server.Object (Server.mkProxyOptions (Some (fun _ _ => None)) None)] = Some s
       ∧ Server.request_listener s = Server.proxyRequest_routed
       ∧ Proxy.cycle ProxyExample.stringify (Server.proxy s) ProxyExample.GET
           Proxy.undefined Proxy.undefined Proxy.undefined ProxyExample.store0
           CycleExample.upload
         = [Proxy.Res (Proxy.writeHead 404 ∅); Proxy.Res Proxy.end_].
Proof.
  apply (router_only_server_routes_or_answers_404 ProxyExample.stringify None 100
           (Server.mkProxyOptions (Some (fun _ _ => None)) None) (fun _ _ => None)
           ProxyExample.GET ProxyExample.store0 CycleExample.upload).
  reflexivity.
Defined.
